(** * payment-service: the payment entity, its store and the payment service

    A shallow embedding of
      - src/payment/entities/payment.entity.ts        (PaymentEntity)
      - src/payment/repositories/payment.repository.ts (PaymentRepository)
      - src/payment/services/payment.service.ts        (PaymentService)
      - src/payment/controllers/payment.controller.ts  (PaymentController)
      - src/common/guards/api-key.guard.ts, api-auth.guard.ts (the guards)
    together with the properties the specification states about them and
    further properties of the code.

    Conventions of the embedding
      - a JavaScript [number] that holds an amount, a page, a limit or a time
        value is an integer of [Z]; the failure rate of the simulator is a
        binary64 float, as in the source;
      - a [Date] is its time value in milliseconds since the epoch; every
        [Date] of the program comes from [new Date()] or from parsing a
        string that [toISOString] wrote, so invalid dates do not occur;
      - an optional property is an [option]; [undefined] is [None];
      - the [Map] of the repository keeps insertion order, so it is an
        association list; [metadata] is a [gmap] from keys to JSON values;
      - the clock and the uuid generator are oracles held in the world:
        the n-th call of [new Date()] returns [clock_source n], the n-th
        call of [uuidv4()] returns [uuid_source n];
      - an entity object is shared between the [Map] and its callers: a
        reference to it is its key in the [Map], and a method that mutates
        the object mutates the stored entry;
      - the background processing of a payment runs in two steps, one after
        each of its delays; requests and steps of other payments may come
        between them, and the random numbers it draws are arguments. *)

From Stdlib Require Import ZArith Lia Ascii String PrimFloat SpecFloat FloatOps.
From stdpp Require Import gmap strings list sorting.

Set Warnings "-inexact-float,-register-all".

#[local] Open Scope string_scope.
#[local] Open Scope Z_scope.

(** ** Enumerations *)

(** The members of [PaymentStatus]; the literal [validTransitions] of the
    service has one entry for each of them. *)
Inductive PaymentStatus : Set :=
  | PENDING | PROCESSING | COMPLETED | FAILED | CANCELLED | REFUNDED.

#[global] Instance PaymentStatus_eq_dec : EqDecision PaymentStatus.
Proof. solve_decision. Defined.

(** Modelled from the spec: the file src/payment/enums is missing. The enums
    are string enums; the README and the spec write their values in lower
    case ([status=pending], [credit_card]). *)
Definition PaymentStatus_value (s : PaymentStatus) : string :=
  match s with
  | PENDING => "pending"
  | PROCESSING => "processing"
  | COMPLETED => "completed"
  | FAILED => "failed"
  | CANCELLED => "cancelled"
  | REFUNDED => "refunded"
  end.

(** Modelled from the spec: the file src/payment/enums is missing. A payment
    method is the string value of its enum member; the spec leaves the
    enumeration open, and the code only ever tests for [CREDIT_CARD]. *)
Definition PaymentMethod : Set := string.
Definition CREDIT_CARD : PaymentMethod := "credit_card".
Definition DEBIT_CARD : PaymentMethod := "debit_card".
Definition BANK_TRANSFER : PaymentMethod := "bank_transfer".
Definition DIGITAL_WALLET : PaymentMethod := "digital_wallet".

(** ** JSON values and dates *)

(** The values of [Record<string, any>]: metadata arrives in a JSON body and
    the simulator adds strings to it. Numbers are integers here; no property
    depends on what the values are. *)
Inductive json : Set :=
  | JNull
  | JBool (b : bool)
  | JNum (n : Z)
  | JStr (s : string)
  | JArr (elems : list json)
  | JObj (fields : list (string * json)).

Definition Date : Set := Z.

(** Truthiness of an optional string: [undefined] and [""] are falsy. *)
Definition truthy_string (o : option string) : bool :=
  match o with
  | Some s => negb (String.eqb s "")
  | None => false
  end.

(** ** The entity (payment.entity.ts) *)

Record PaymentEntity : Type := mkPayment {
  id : string;
  amount : Z;
  currency : string;
  paymentMethod : PaymentMethod;
  status : PaymentStatus;
  customerId : string;
  description : option string;
  metadata : option (gmap string json);
  createdAt : Date;
  updatedAt : Date;
  processedAt : option Date;
  failureReason : option string
}.

(** [Partial<PaymentEntity>] as the two construction sites use it: the six
    required properties are always supplied, the others may be missing. *)
Record PartialPayment : Type := mkPartial {
  p_id : string;
  p_amount : Z;
  p_currency : string;
  p_paymentMethod : PaymentMethod;
  p_status : PaymentStatus;
  p_customerId : string;
  p_description : option string;
  p_metadata : option (gmap string json);
  p_createdAt : option Date;
  p_updatedAt : option Date;
  p_processedAt : option Date;
  p_failureReason : option string
}.

(** What [toJSON] followed by [JSON.stringify] and [JSON.parse] yields for one
    payment: the same properties, the dates as ISO-8601 strings, a property
    whose value is [undefined] left out. Printing a JSON value as text and
    parsing the text back is the work of the runtime and gives the value
    back, so the file holds the list of these records. *)
Record PaymentData : Type := mkData {
  d_id : string;
  d_amount : Z;
  d_currency : string;
  d_paymentMethod : PaymentMethod;
  d_status : PaymentStatus;
  d_customerId : string;
  d_description : option string;
  d_metadata : option (gmap string json);
  d_createdAt : string;
  d_updatedAt : string;
  d_processedAt : option string;
  d_failureReason : option string
}.

(** ** The world: repository state, file mirror, clock and uuid oracles *)

(** [payments] is the [Map] of the repository in insertion order; [file] is
    the content of data/payments.json, [None] when the file does not exist
    (a file that is not a JSON array of payments is outside the model);
    [scheduled] lists the payments whose background processing has been
    started; the two sources answer [new Date()] and [uuidv4()], and the two
    counters say how many answers have been consumed. *)
Record World : Type := mkWorld {
  payments : list (string * PaymentEntity);
  file : option (list PaymentData);
  scheduled : list string;
  clock_source : nat -> Date;
  clock_reads : nat;
  uuid_source : nat -> string;
  uuid_draws : nat
}.

Inductive Exception : Type :=
  | PaymentNotFoundException (paymentId : string)
  | InvalidPaymentStatusException (currentStatus attemptedStatus : PaymentStatus).

Inductive Result (A : Type) : Type :=
  | Ok (a : A)
  | Throw (e : Exception).
Arguments Ok {A} a.
Arguments Throw {A} e.

(** A computation of the service: it may throw, and it threads the world. *)
Definition M (A : Type) : Type := World -> Result A * World.

Definition ret {A} (a : A) : M A := fun w => (Ok a, w).
Definition throw {A} (e : Exception) : M A := fun w => (Throw e, w).
Definition bind {A B} (m : M A) (k : A -> M B) : M B :=
  fun w => match m w with
           | (Ok a, w') => k a w'
           | (Throw e, w') => (Throw e, w')
           end.

Notation "x <- m ;; k" := (bind m (fun x => k))
  (at level 100, m at next level, right associativity).
Notation "m ;;; k" := (bind m (fun _ => k))
  (at level 100, right associativity).

Definition set_payments (f : list (string * PaymentEntity) -> list (string * PaymentEntity))
    (w : World) : World :=
  mkWorld (f (payments w)) (file w) (scheduled w)
          (clock_source w) (clock_reads w) (uuid_source w) (uuid_draws w).

Definition set_file (c : option (list PaymentData)) (w : World) : World :=
  mkWorld (payments w) c (scheduled w)
          (clock_source w) (clock_reads w) (uuid_source w) (uuid_draws w).

(** [new Date()] *)
Definition new_Date : M Date := fun w =>
  (Ok (clock_source w (clock_reads w)),
   mkWorld (payments w) (file w) (scheduled w)
           (clock_source w) (S (clock_reads w)) (uuid_source w) (uuid_draws w)).

(** [uuidv4()] *)
Definition uuidv4 : M string := fun w =>
  (Ok (uuid_source w (uuid_draws w)),
   mkWorld (payments w) (file w) (scheduled w)
           (clock_source w) (clock_reads w) (uuid_source w) (S (uuid_draws w))).

(** [a || new Date()]: the clock is read only when [a] is missing. *)
Definition or_new_Date (a : option Date) : M Date :=
  match a with
  | Some d => ret d
  | None => new_Date
  end.

Module PaymentEntity.

(** [constructor(partial)] *)
Definition new (partial : PartialPayment) : M PaymentEntity :=
  c <- or_new_Date (p_createdAt partial) ;;
  u <- or_new_Date (p_updatedAt partial) ;;
  ret (mkPayment (p_id partial) (p_amount partial) (p_currency partial)
         (p_paymentMethod partial) (p_status partial) (p_customerId partial)
         (p_description partial) (p_metadata partial) c u
         (p_processedAt partial) (p_failureReason partial)).

(** [updateStatus(status, failureReason?)] *)
Definition updateStatus (newStatus : PaymentStatus) (reason : option string)
    (this : PaymentEntity) : M PaymentEntity :=
  u <- new_Date ;;
  pr <- (match newStatus with
         | COMPLETED | FAILED => d <- new_Date ;; ret (Some d)
         | _ => ret (processedAt this)
         end) ;;
  ret (mkPayment (id this) (amount this) (currency this) (paymentMethod this)
         newStatus (customerId this) (description this) (metadata this)
         (createdAt this) u pr
         (if truthy_string reason then reason else failureReason this)).

(** [{ ...a, ...b }]: the keys of [b] win. *)
Definition spread (a : option (gmap string json)) (b : gmap string json)
    : gmap string json :=
  b ∪ default ∅ a.

(** [updateMetadata(metadata)] *)
Definition updateMetadata (patch : gmap string json) (this : PaymentEntity)
    : M PaymentEntity :=
  u <- new_Date ;;
  ret (mkPayment (id this) (amount this) (currency this) (paymentMethod this)
         (status this) (customerId this) (description this)
         (Some (spread (metadata this) patch))
         (createdAt this) u (processedAt this) (failureReason this)).

(** [toJSON()] *)
Definition toJSON (this : PaymentEntity) : PaymentEntity :=
  {| id := id this; amount := amount this; currency := currency this;
     paymentMethod := paymentMethod this; status := status this;
     customerId := customerId this; description := description this;
     metadata := metadata this; createdAt := createdAt this;
     updatedAt := updatedAt this; processedAt := processedAt this;
     failureReason := failureReason this |}.

End PaymentEntity.

(** ** ISO-8601 date strings ([Date.prototype.toISOString], [new Date(string)])

    The runtime's conversion between a time value and its ISO-8601 string in
    UTC, over the proleptic Gregorian calendar: [YYYY-MM-DDTHH:mm:ss.sssZ],
    with the expanded year [+YYYYYY] or [-YYYYYY] outside of 0..9999. *)
Module ISODate.

Definition msPerDay : Z := 86400000.


(** Day number (days since the epoch) to year, month (1..12), day (1..31). *)
Definition civil_from_days (z : Z) : Z * Z * Z :=
  let z := z + 719468 in
  let era := z / 146097 in
  let doe := z - era * 146097 in
  let yoe := (doe - doe / 1460 + doe / 36524 - doe / 146096) / 365 in
  let doy := doe - (365 * yoe + yoe / 4 - yoe / 100) in
  let mp := (5 * doy + 2) / 153 in
  let d := doy - (153 * mp + 2) / 5 + 1 in
  let m := if mp <? 10 then mp + 3 else mp - 9 in
  (yoe + era * 400 + (if m <=? 2 then 1 else 0), m, d).

(** Year, month, day to day number. *)
Definition days_from_civil (y m d : Z) : Z :=
  let y := y - (if m <=? 2 then 1 else 0) in
  let era := y / 400 in
  let yoe := y - era * 400 in
  let doy := (153 * (if 2 <? m then m - 3 else m + 9) + 2) / 5 + d - 1 in
  let doe := yoe * 365 + yoe / 4 - yoe / 100 + doy in
  era * 146097 + doe - 719468.

Definition digit (d : Z) : ascii :=
  match d with
  | 0 => "0" | 1 => "1" | 2 => "2" | 3 => "3" | 4 => "4"
  | 5 => "5" | 6 => "6" | 7 => "7" | 8 => "8" | _ => "9"
  end%char.

Definition digit_value (c : ascii) : option Z :=
  (if Ascii.eqb c "0" then Some 0 else if Ascii.eqb c "1" then Some 1
   else if Ascii.eqb c "2" then Some 2 else if Ascii.eqb c "3" then Some 3
   else if Ascii.eqb c "4" then Some 4 else if Ascii.eqb c "5" then Some 5
   else if Ascii.eqb c "6" then Some 6 else if Ascii.eqb c "7" then Some 7
   else if Ascii.eqb c "8" then Some 8 else if Ascii.eqb c "9" then Some 9
   else None)%char.

(** [v] in [k] decimal digits, most significant first, in front of [rest]. *)
Fixpoint pad (k : nat) (v : Z) (rest : string) : string :=
  match k with
  | O => rest
  | S k' => pad k' (v / 10) (String (digit (v mod 10)) rest)
  end.

Definition year_string (y : Z) (rest : string) : string :=
  if (0 <=? y) && (y <=? 9999) then pad 4 y rest
  else if y <? 0 then String "-" (pad 6 (- y) rest)
  else String "+" (pad 6 y rest).

Definition toISOString (t : Z) : string :=
  let day := t / msPerDay in
  let tod := t mod msPerDay in
  let '(y, m, d) := civil_from_days day in
  year_string y (String "-" (pad 2 m (String "-" (pad 2 d (String "T"
    (pad 2 (tod / 3600000) (String ":" (pad 2 (tod / 60000 mod 60) (String ":"
      (pad 2 (tod / 1000 mod 60) (String "." (pad 3 (tod mod 1000) "Z")))))))))))).

(** Reads [k] decimal digits; [acc] is the value of the digits read so far. *)
Fixpoint digits (k : nat) (acc : Z) (s : string) : option (Z * string) :=
  match k with
  | O => Some (acc, s)
  | S k' =>
      match s with
      | String c s' =>
          match digit_value c with
          | Some d => digits k' (10 * acc + d) s'
          | None => None
          end
      | EmptyString => None
      end
  end.

Definition expect (c : ascii) (s : string) : option string :=
  match s with
  | String c' s' => if Ascii.eqb c c' then Some s' else None
  | EmptyString => None
  end.

Definition year_of_string (s : string) : option (Z * string) :=
  match s with
  | String "+" s' => digits 6 0 s'
  | String "-" s' => '(y, r) ← digits 6 0 s'; if y =? 0 then None else Some (- y, r)
  | _ => digits 4 0 s
  end.

(** The time value of a string in the full date-time format with the [Z]
    offset, which is the format [toISOString] writes; [None] is the
    invalid date. The other forms that [Date.parse] accepts (a date alone,
    a numeric offset) do not occur in the file mirror. *)
Definition parse (s : string) : option Z :=
  '(y, s) ← year_of_string s; s ← expect "-" s;
  '(m, s) ← digits 2 0 s; s ← expect "-" s;
  '(d, s) ← digits 2 0 s; s ← expect "T" s;
  '(h, s) ← digits 2 0 s; s ← expect ":" s;
  '(mi, s) ← digits 2 0 s; s ← expect ":" s;
  '(sec, s) ← digits 2 0 s; s ← expect "." s;
  '(ms, s) ← digits 3 0 s; s ← expect "Z" s;
  if String.eqb s "" && (1 <=? m) && (m <=? 12) && (1 <=? d) && (d <=? 31)
     && (h <=? 23) && (mi <=? 59) && (sec <=? 59)
  then Some (days_from_civil y m d * msPerDay
             + h * 3600000 + mi * 60000 + sec * 1000 + ms)
  else None.

End ISODate.

(** [new Date(s)] for a string of the file mirror. The invalid date is not in
    the model: a string that is not a date maps to the time value 0, and
    [saveToFile] never writes one (see [parse_toISOString]). *)
Definition Date_of_string (s : string) : Date := default 0 (ISODate.parse s).

(** ** The repository (payment.repository.ts) *)

Inductive SortOrder : Set := asc | desc.

(** The values [getSortValue] returns: a number or a string. *)
Inductive SortValue : Set :=
  | SNum (n : Z)
  | SStr (s : string).

(** [a > b] and [a < b] on two sort values of the same kind; the two operands
    always come from the same [sortBy], so mixed kinds do not occur. Strings
    are compared character by character, by character code. *)
Definition js_gt (a b : SortValue) : bool :=
  match a, b with
  | SNum x, SNum y => y <? x
  | SStr x, SStr y => String.ltb y x
  | _, _ => false
  end.
Definition js_lt (a b : SortValue) : bool := js_gt b a.

Record PageResult : Type := mkPage {
  data : list PaymentEntity;
  total : Z
}.

(** [Array.prototype.slice(start, end)] on integer arguments: a negative
    index counts from the end of the array. *)
Definition Array_slice {A} (l : list A) (start end_ : Z) : list A :=
  let len := Z.of_nat (length l) in
  let k := if start <? 0 then Z.max (len + start) 0 else Z.min start len in
  let final := if end_ <? 0 then Z.max (len + end_) 0 else Z.min end_ len in
  take (Z.to_nat (final - k)) (drop (Z.to_nat k) l).

Section ArraySort.
Context {A : Type} (comparefn : A -> A -> Z).

(** Moves [x] to the left past every element [y] with [comparefn y x > 0];
    [before] is the sorted part, nearest element first. *)
Fixpoint sink (x : A) (before : list A) : list A :=
  match before with
  | [] => [x]
  | y :: before' =>
      if 0 <? comparefn y x then y :: sink x before' else x :: y :: before'
  end.

(** [Array.prototype.sort(comparefn)], as an insertion sort. When
    [comparefn] is a consistent comparator every sort returns this list;
    when it is not (the comparators of the repository never return 0) the
    order of elements with equal keys is the engine's choice. *)
Definition Array_sort (l : list A) : list A :=
  reverse (foldl (fun before x => sink x before) [] l).
End ArraySort.

(** The parameters of the paginated queries have default values in the
    source ([page = 1], [limit = 10], [sortBy = 'createdAt'],
    [sortOrder = 'desc']); here every call passes all of them. *)
Module PaymentRepository.

(** [Map.prototype.get] *)
Fixpoint Map_get (k : string) (m : list (string * PaymentEntity))
    : option PaymentEntity :=
  match m with
  | [] => None
  | (k', v) :: m' => if String.eqb k k' then Some v else Map_get k m'
  end.

(** [Map.prototype.set]: an existing key keeps its position. *)
Fixpoint Map_set (k : string) (v : PaymentEntity) (m : list (string * PaymentEntity))
    : list (string * PaymentEntity) :=
  match m with
  | [] => [(k, v)]
  | (k', v') :: m' =>
      if String.eqb k k' then (k, v) :: m' else (k', v') :: Map_set k v m'
  end.

(** [Array.from(this.payments.values())] *)
Definition values (w : World) : list PaymentEntity := (payments w).*2.

(** What [JSON.stringify] writes for the object [toJSON] returns, read back
    by [JSON.parse]: each [Date] is replaced by its [toISOString()]. *)
Definition stringify (o : PaymentEntity) : PaymentData :=
  {| d_id := id o; d_amount := amount o; d_currency := currency o;
     d_paymentMethod := paymentMethod o; d_status := status o;
     d_customerId := customerId o; d_description := description o;
     d_metadata := metadata o;
     d_createdAt := ISODate.toISOString (createdAt o);
     d_updatedAt := ISODate.toISOString (updatedAt o);
     d_processedAt := ISODate.toISOString <$> processedAt o;
     d_failureReason := failureReason o |}.

(** [saveToFile()]; the write is taken to succeed. *)
Definition saveToFile : M unit := fun w =>
  let paymentsArray :=
    (fun payment => stringify (PaymentEntity.toJSON payment)) <$> values w in
  (Ok tt, set_file (Some paymentsArray) w).

(** The argument of the constructor in [loadFromFile]. *)
Definition revive (paymentData : PaymentData) : PartialPayment :=
  {| p_id := d_id paymentData; p_amount := d_amount paymentData;
     p_currency := d_currency paymentData;
     p_paymentMethod := d_paymentMethod paymentData;
     p_status := d_status paymentData;
     p_customerId := d_customerId paymentData;
     p_description := d_description paymentData;
     p_metadata := d_metadata paymentData;
     p_createdAt := Some (Date_of_string (d_createdAt paymentData));
     p_updatedAt := Some (Date_of_string (d_updatedAt paymentData));
     p_processedAt :=
       if truthy_string (d_processedAt paymentData)
       then Date_of_string <$> d_processedAt paymentData else None;
     p_failureReason := d_failureReason paymentData |}.

Fixpoint load_all (paymentsData : list PaymentData) : M unit :=
  match paymentsData with
  | [] => ret tt
  | paymentData :: rest =>
      payment <- PaymentEntity.new (revive paymentData) ;;
      (fun w => (Ok tt, set_payments (Map_set (id payment) payment) w)) ;;;
      load_all rest
  end.

(** [loadFromFile()]; a missing file leaves the store as it is. *)
Definition loadFromFile : M unit := fun w =>
  match file w with
  | Some paymentsData => load_all paymentsData w
  | None => (Ok tt, w)
  end.

(** [create(payment)] *)
Definition create (payment : PaymentEntity) : M PaymentEntity :=
  (fun w => (Ok tt, set_payments (Map_set (id payment) payment) w)) ;;;
  saveToFile ;;;
  ret payment.

(** [findById(id)] *)
Definition findById (paymentId : string) : M (option PaymentEntity) := fun w =>
  (Ok (Map_get paymentId (payments w)), w).

(** [update(payment)] *)
Definition update (payment : PaymentEntity) : M PaymentEntity :=
  (fun w => (Ok tt, set_payments (Map_set (id payment) payment) w)) ;;;
  saveToFile ;;;
  ret payment.

(** [getSortValue(payment, sortBy)] *)
Definition getSortValue (payment : PaymentEntity) (sortBy : string) : SortValue :=
  if String.eqb sortBy "amount" then SNum (amount payment)
  else if String.eqb sortBy "status" then SStr (PaymentStatus_value (status payment))
  else if String.eqb sortBy "customerId" then SStr (customerId payment)
  else if String.eqb sortBy "paymentMethod" then SStr (paymentMethod payment)
  else if String.eqb sortBy "currency" then SStr (currency payment)
  else if String.eqb sortBy "createdAt" then SNum (createdAt payment)
  else if String.eqb sortBy "updatedAt" then SNum (updatedAt payment)
  else SNum (createdAt payment).

(** The comparator that the three paginated queries pass to [sort]. *)
Definition comparator (sortBy : string) (sortOrder : SortOrder)
    (a b : PaymentEntity) : Z :=
  let aValue := getSortValue a sortBy in
  let bValue := getSortValue b sortBy in
  match sortOrder with
  | asc => if js_gt aValue bValue then 1 else -1
  | desc => if js_lt aValue bValue then 1 else -1
  end.

(** [paginateResults(payments, page, limit)] *)
Definition paginateResults (payments : list PaymentEntity) (page limit : Z)
    : PageResult :=
  let total := Z.of_nat (length payments) in
  let startIndex := (page - 1) * limit in
  let endIndex := startIndex + limit in
  let data := Array_slice payments startIndex endIndex in
  {| data := data; total := total |}.

(** [findPaginated(page, limit, sortBy, sortOrder)] *)
Definition findPaginated (page limit : Z) (sortBy : string) (sortOrder : SortOrder)
    : M PageResult := fun w =>
  let allPayments := values w in
  let sortedPayments := Array_sort (comparator sortBy sortOrder) allPayments in
  (Ok (paginateResults sortedPayments page limit), w).

(** [findByCustomerIdPaginated(customerId, page, limit, sortBy, sortOrder)] *)
Definition findByCustomerIdPaginated (customer : string) (page limit : Z)
    (sortBy : string) (sortOrder : SortOrder) : M PageResult := fun w =>
  let customerPayments :=
    filter (fun payment => customerId payment = customer) (values w) in
  let sortedPayments := Array_sort (comparator sortBy sortOrder) customerPayments in
  (Ok (paginateResults sortedPayments page limit), w).

(** [findByStatusPaginated(status, page, limit, sortBy, sortOrder)] *)
Definition findByStatusPaginated (st : PaymentStatus) (page limit : Z)
    (sortBy : string) (sortOrder : SortOrder) : M PageResult := fun w =>
  let statusPayments :=
    filter (fun payment => status payment = st) (values w) in
  let sortedPayments := Array_sort (comparator sortBy sortOrder) statusPayments in
  (Ok (paginateResults sortedPayments page limit), w).


(** [findAll()] *)
Definition findAll : M (list PaymentEntity) := fun w => (Ok (values w), w).

(** [findByCustomerId(customerId)] *)
Definition findByCustomerId (customer : string) : M (list PaymentEntity) := fun w =>
  (Ok (filter (fun payment => customerId payment = customer) (values w)), w).

(** [findByStatus(status)] *)
Definition findByStatus (st : PaymentStatus) : M (list PaymentEntity) := fun w =>
  (Ok (filter (fun payment => status payment = st) (values w)), w).

(** [count()]: the size of the [Map]. *)
Definition count : M Z := fun w => (Ok (Z.of_nat (length (payments w))), w).

End PaymentRepository.

(** ** The service (payment.service.ts) *)

Record CreatePaymentDto : Type := mkCreateDto {
  c_amount : Z;
  c_currency : string;
  c_paymentMethod : PaymentMethod;
  c_customerId : string;
  c_description : option string;
  c_metadata : option (gmap string json)
}.

Record UpdatePaymentDto : Type := mkUpdateDto {
  u_status : option PaymentStatus;
  u_metadata : option (gmap string json);
  u_failureReason : option string
}.

(** The pagination part of a query, as the service reads it. *)
Record PaginationDto : Type := mkPagination {
  pg_page : Z;
  pg_limit : Z;
  pg_sortBy : string;
  pg_sortOrder : SortOrder
}.

(** A JavaScript number that [Math.ceil(total / limit)] can be: an integer,
    an infinity (a division by zero) or [NaN] (zero by zero). *)
Inductive JsNumber : Set :=
  | Finite (z : Z)
  | PosInfinity
  | NegInfinity
  | NaN.

Record PaginationMetaDto : Type := mkMeta {
  m_page : Z;
  m_limit : Z;
  m_total : Z;
  m_totalPages : JsNumber;
  m_hasNext : bool;
  m_hasPrevious : bool
}.

Record PaginatedResponseDto : Type := mkResponse {
  r_data : list PaymentEntity;
  r_meta : PaginationMetaDto
}.

(** What [simulatePaymentProcessing] resolves to. *)
Record ProcessingResult : Type := mkProcessingResult {
  success : bool;
  transactionId : option string;
  response : option string;
  error : option string
}.

Module PaymentService.

(** The literal [validTransitions]. *)
Definition validTransitions (currentStatus : PaymentStatus) : list PaymentStatus :=
  match currentStatus with
  | PENDING => [PROCESSING; CANCELLED]
  | PROCESSING => [COMPLETED; FAILED]
  | COMPLETED => [REFUNDED]
  | FAILED => [PENDING]
  | CANCELLED => []
  | REFUNDED => []
  end.

(** [Array.prototype.includes] *)
Definition includes (l : list PaymentStatus) (s : PaymentStatus) : bool :=
  existsb (fun x => bool_decide (x = s)) l.

(** [isValidStatusTransition(currentStatus, newStatus)] *)
Definition isValidStatusTransition (currentStatus newStatus : PaymentStatus) : bool :=
  includes (validTransitions currentStatus) newStatus || false.

(** A method call on the entity object that [findById] returned under the
    key [ref]: the object is the one the [Map] holds, so the stored entry
    changes with it. *)
Definition mutate (ref : string) (method : PaymentEntity -> M PaymentEntity)
    (payment : PaymentEntity) : M PaymentEntity :=
  payment' <- method payment ;;
  (fun w => (Ok tt, set_payments
               (fmap (fun kv => if String.eqb (fst kv) ref then (fst kv, payment') else kv)) w)) ;;;
  ret payment'.

(** [processPaymentAsync(paymentId)] is not awaited: the call registers the
    background work for the payment and returns. *)
Definition processPaymentAsync (paymentId : string) : M unit := fun w =>
  (Ok tt, mkWorld (payments w) (file w) (scheduled w ++ [paymentId])
            (clock_source w) (clock_reads w) (uuid_source w) (uuid_draws w)).

(** [createPayment(createPaymentDto)] *)
Definition createPayment (createPaymentDto : CreatePaymentDto) : M PaymentEntity :=
  uuid <- uuidv4 ;;
  payment <- PaymentEntity.new
    {| p_id := uuid;
       p_amount := c_amount createPaymentDto;
       p_currency := c_currency createPaymentDto;
       p_paymentMethod := c_paymentMethod createPaymentDto;
       p_status := PENDING;
       p_customerId := c_customerId createPaymentDto;
       p_description := c_description createPaymentDto;
       p_metadata := c_metadata createPaymentDto;
       p_createdAt := None; p_updatedAt := None;
       p_processedAt := None; p_failureReason := None |} ;;
  savedPayment <- PaymentRepository.create payment ;;
  processPaymentAsync (id savedPayment) ;;;
  ret savedPayment.

(** [getPaymentById(id)] *)
Definition getPaymentById (paymentId : string) : M PaymentEntity :=
  payment <- PaymentRepository.findById paymentId ;;
  match payment with
  | None => throw (PaymentNotFoundException paymentId)
  | Some payment => ret payment
  end.

(** [updatePayment(id, updatePaymentDto)] *)
Definition updatePayment (paymentId : string) (updatePaymentDto : UpdatePaymentDto)
    : M PaymentEntity :=
  payment <- getPaymentById paymentId ;;
  (match u_status updatePaymentDto with
   | Some newStatus =>
       if negb (isValidStatusTransition (status payment) newStatus)
       then throw (InvalidPaymentStatusException (status payment) newStatus)
       else ret tt
   | None => ret tt
   end) ;;;
  payment <- (match u_status updatePaymentDto with
              | Some newStatus =>
                  mutate paymentId
                    (PaymentEntity.updateStatus newStatus
                       (u_failureReason updatePaymentDto)) payment
              | None => ret payment
              end) ;;
  payment <- (match u_metadata updatePaymentDto with
              | Some patch =>
                  mutate paymentId (PaymentEntity.updateMetadata patch) payment
              | None => ret payment
              end) ;;
  PaymentRepository.update payment.

(** [Math.min] on two numbers. *)
Definition Math_min (a b : float) : float :=
  if PrimFloat.is_nan a || PrimFloat.is_nan b then PrimFloat.nan
  else if PrimFloat.ltb a b then a
  else if PrimFloat.ltb b a then b
  else if PrimFloat.get_sign a then a else b.

(** [getFailureRate(payment)] *)
Definition getFailureRate (payment : PaymentEntity) : float :=
  let failureRate := 0.1%float in
  let failureRate :=
    if 10000 <? amount payment then (failureRate + 0.1)%float else failureRate in
  let failureRate :=
    if String.eqb (paymentMethod payment) CREDIT_CARD
    then (failureRate + 0.05)%float else failureRate in
  Math_min failureRate 0.5%float.

(** [Math.ceil(a / b)] on two integers. *)
Definition Math_ceil_div (a b : Z) : JsNumber :=
  if b =? 0
  then (if a =? 0 then NaN else if 0 <? a then PosInfinity else NegInfinity)
  else Finite (- ((- a) / b)).

(** [p < n] for an integer [p]. *)
Definition lt_number (p : Z) (n : JsNumber) : bool :=
  match n with
  | Finite z => p <? z
  | PosInfinity => true
  | NegInfinity => false
  | NaN => false
  end.

(** [getAllPaymentsPaginated(paginationDto)] *)
Definition getAllPaymentsPaginated (paginationDto : PaginationDto)
    : M PaginatedResponseDto :=
  r <- PaymentRepository.findPaginated (pg_page paginationDto)
         (pg_limit paginationDto) (pg_sortBy paginationDto)
         (pg_sortOrder paginationDto) ;;
  let totalPages := Math_ceil_div (total r) (pg_limit paginationDto) in
  let meta :=
    {| m_page := pg_page paginationDto;
       m_limit := pg_limit paginationDto;
       m_total := total r;
       m_totalPages := totalPages;
       m_hasNext := lt_number (pg_page paginationDto) totalPages;
       m_hasPrevious := 1 <? pg_page paginationDto |} in
  ret {| r_data := data r; r_meta := meta |}.

(** [getPaymentsByCustomerIdPaginated(customerId, paginationDto)] *)
Definition getPaymentsByCustomerIdPaginated (customer : string)
    (paginationDto : PaginationDto) : M PaginatedResponseDto :=
  r <- PaymentRepository.findByCustomerIdPaginated customer
         (pg_page paginationDto) (pg_limit paginationDto)
         (pg_sortBy paginationDto) (pg_sortOrder paginationDto) ;;
  let totalPages := Math_ceil_div (total r) (pg_limit paginationDto) in
  let meta :=
    {| m_page := pg_page paginationDto;
       m_limit := pg_limit paginationDto;
       m_total := total r;
       m_totalPages := totalPages;
       m_hasNext := lt_number (pg_page paginationDto) totalPages;
       m_hasPrevious := 1 <? pg_page paginationDto |} in
  ret {| r_data := data r; r_meta := meta |}.

(** [getPaymentsByStatusPaginated(status, paginationDto)] *)
Definition getPaymentsByStatusPaginated (st : PaymentStatus)
    (paginationDto : PaginationDto) : M PaginatedResponseDto :=
  r <- PaymentRepository.findByStatusPaginated st
         (pg_page paginationDto) (pg_limit paginationDto)
         (pg_sortBy paginationDto) (pg_sortOrder paginationDto) ;;
  let totalPages := Math_ceil_div (total r) (pg_limit paginationDto) in
  let meta :=
    {| m_page := pg_page paginationDto;
       m_limit := pg_limit paginationDto;
       m_total := total r;
       m_totalPages := totalPages;
       m_hasNext := lt_number (pg_page paginationDto) totalPages;
       m_hasPrevious := 1 <? pg_page paginationDto |} in
  ret {| r_data := data r; r_meta := meta |}.

(** The literal [errorReasons]. *)
Definition errorReasons : list string :=
  ["Insufficient funds"; "Card declined"; "Invalid card number";
   "Expired card"; "Network timeout"; "Fraud detection"].

(** [Math.floor] of a number; [None] for [NaN] and the infinities. *)
Definition Math_floor (x : float) : option Z :=
  match Prim2SF x with
  | S754_zero _ => Some 0
  | S754_finite sign m e =>
      let den := 2 ^ (- e) in
      if 0 <=? e then Some ((if sign then -1 else 1) * (Z.pos m * 2 ^ e))
      else if sign then Some (- ((Z.pos m + den - 1) / den))
      else Some (Z.pos m / den)
  | S754_infinity _ => None
  | S754_nan => None
  end.

(** [array[i]] for a number [i]: [undefined] unless [i] is an index. *)
Definition Array_at {A} (l : list A) (i : option Z) : option A :=
  match i with
  | Some z => if z <? 0 then None else l !! Z.to_nat z
  | None => None
  end.

(** [s.replace(c, replacement)] for a pattern of one character: the first
    occurrence only. *)
Fixpoint String_replace (c : ascii) (replacement : string) (s : string) : string :=
  match s with
  | EmptyString => EmptyString
  | String c' s' =>
      if Ascii.eqb c c' then String.append replacement s'
      else String c' (String_replace c replacement s')
  end.

(** [simulatePaymentProcessing(payment)] once its delay is over; [r1] and
    [r2] are what the two calls of [Math.random()] return (the second one is
    only made when the payment fails). *)
Definition simulatePaymentProcessing (payment : PaymentEntity) (r1 r2 : float)
    : M ProcessingResult :=
  let failureRate := getFailureRate payment in
  let shouldFail := PrimFloat.ltb r1 failureRate in
  if shouldFail
  then ret {| success := false; transactionId := None; response := None;
              error := Array_at errorReasons (Math_floor (r2 * 6)%float) |}
  else
    uuid <- uuidv4 ;;
    ret {| success := true;
           transactionId := Some (String.append "txn_" (String_replace "-" "" uuid));
           response := Some "Payment approved";
           error := None |}.

(** [try { body } catch (error) { handler }] *)
Definition try_catch {A} (body : M A) (handler : Exception -> M A) : M A := fun w =>
  match body w with
  | (Ok a, w') => (Ok a, w')
  | (Throw e, w') => handler e w'
  end.

(** The [catch] block of [processPaymentAsync]. *)
Definition processPaymentAsync_rollback (paymentId : string) : M unit :=
  try_catch
    (payment <- PaymentRepository.findById paymentId ;;
     match payment with
     | Some payment =>
         payment <- mutate paymentId
           (PaymentEntity.updateStatus FAILED (Some "Internal processing error"))
           payment ;;
         PaymentRepository.update payment ;;;
         ret tt
     | None => ret tt
     end)
    (fun _ => ret tt).

(** The metadata value of an optional string. *)
Definition json_of_string (o : option string) : json :=
  match o with
  | Some s => JStr s
  | None => JNull
  end.

(** The work of [processPaymentAsync(paymentId)] between its first delay
    and the delay of [simulatePaymentProcessing]: the payment is fetched
    and, whatever its status, moved to PROCESSING. The result says whether
    the payment was found (the pipeline ends when it was not). *)
Definition processPaymentAsync_start (paymentId : string) : M bool :=
  try_catch
    (payment <- PaymentRepository.findById paymentId ;;
     match payment with
     | None => ret false
     | Some payment =>
         payment <- mutate paymentId
           (PaymentEntity.updateStatus PROCESSING None) payment ;;
         PaymentRepository.update payment ;;;
         ret true
     end)
    (fun _ => processPaymentAsync_rollback paymentId ;;; ret false).

(** The rest of [processPaymentAsync(paymentId)], after the second delay;
    [payment] of the source is the object fetched at the start, which is the
    entry of the [Map] under [paymentId]. *)
Definition processPaymentAsync_finish (paymentId : string) (r1 r2 : float) : M unit :=
  try_catch
    (payment <- PaymentRepository.findById paymentId ;;
     match payment with
     | None => ret tt
     | Some payment =>
         processingResult <- simulatePaymentProcessing payment r1 r2 ;;
         payment <-
           (if success processingResult
            then
              payment <- mutate paymentId
                (PaymentEntity.updateStatus COMPLETED None) payment ;;
              mutate paymentId
                (PaymentEntity.updateMetadata
                   (<["processorResponse" := json_of_string (response processingResult)]>
                      (<["transactionId" := json_of_string (transactionId processingResult)]>
                         (default ∅ (metadata payment)))))
                payment
            else
              mutate paymentId
                (PaymentEntity.updateStatus FAILED (error processingResult))
                payment) ;;
         PaymentRepository.update payment ;;;
         ret tt
     end)
    (fun _ => processPaymentAsync_rollback paymentId).

(** [cleanup()]: the pending timers are cleared, so no scheduled work runs. *)
Definition cleanup : M unit := fun w =>
  (Ok tt, mkWorld (payments w) (file w) [] (clock_source w) (clock_reads w)
            (uuid_source w) (uuid_draws w)).

End PaymentService.

(** ** The controller (payment.controller.ts) *)

(** The query of [GET /payments]: the pagination and the two filters. *)
Record PaymentQueryDto : Type := mkQuery {
  q_pagination : PaginationDto;
  q_customerId : option string;
  q_status : option PaymentStatus
}.

Module PaymentController.

(** [getAllPayments(queryDto)] *)
Definition getAllPayments (queryDto : PaymentQueryDto) : M PaginatedResponseDto :=
  result <-
    (if truthy_string (q_customerId queryDto)
     then PaymentService.getPaymentsByCustomerIdPaginated
            (default "" (q_customerId queryDto)) (q_pagination queryDto)
     else match q_status queryDto with
          | Some st =>
              PaymentService.getPaymentsByStatusPaginated st (q_pagination queryDto)
          | None => PaymentService.getAllPaymentsPaginated (q_pagination queryDto)
          end) ;;
  ret {| r_data := PaymentEntity.toJSON <$> r_data result;
         r_meta := r_meta result |}.

(** [createPayment(createPaymentDto)] *)
Definition createPayment (createPaymentDto : CreatePaymentDto) : M PaymentEntity :=
  payment <- PaymentService.createPayment createPaymentDto ;;
  ret (PaymentEntity.toJSON payment).

(** [getPaymentById(id)] *)
Definition getPaymentById (paymentId : string) : M PaymentEntity :=
  payment <- PaymentService.getPaymentById paymentId ;;
  ret (PaymentEntity.toJSON payment).

(** [updatePayment(id, updatePaymentDto)] *)
Definition updatePayment (paymentId : string) (updatePaymentDto : UpdatePaymentDto)
    : M PaymentEntity :=
  payment <- PaymentService.updatePayment paymentId updatePaymentDto ;;
  ret (PaymentEntity.toJSON payment).

End PaymentController.

(** ** The guards (api-key.guard.ts, api-auth.guard.ts) *)

(** What [canActivate] does: it returns [true] or throws
    [UnauthorizedException] with a message. *)
Inductive GuardResult : Type :=
  | Activated
  | UnauthorizedException (message : string).

(** [String.prototype.split] with a separator of one character. *)
Fixpoint String_split (separator : ascii) (s : string) : list string :=
  match s with
  | EmptyString => [EmptyString]
  | String c s' =>
      if Ascii.eqb c separator then EmptyString :: String_split separator s'
      else match String_split separator s' with
           | segment :: rest => String c segment :: rest
           | [] => [String c EmptyString]
           end
  end.

(** The request is read through its [x-api-key] header, the environment
    through [API_KEYS]; [is_whitespace] says which characters
    [String.prototype.trim] removes (the white space and the line
    terminators of the language). *)
Module ApiKeyGuard.
Section Trim.
Variable is_whitespace : ascii -> bool.

Fixpoint trimStart (s : string) : string :=
  match s with
  | EmptyString => EmptyString
  | String c s' => if is_whitespace c then trimStart s' else s
  end.

Fixpoint trimEnd (s : string) : string :=
  match s with
  | EmptyString => EmptyString
  | String c s' =>
      match trimEnd s' with
      | EmptyString => if is_whitespace c then EmptyString else String c EmptyString
      | rest => String c rest
      end
  end.

(** [String.prototype.trim] *)
Definition trim (s : string) : string := trimEnd (trimStart s).

(** [extractApiKey(request)] *)
Definition extractApiKey (apiKeyHeader : option string) : option string :=
  if truthy_string apiKeyHeader then apiKeyHeader else None.

(** [getValidApiKeys()] *)
Definition getValidApiKeys (API_KEYS : option string) : list string :=
  match API_KEYS with
  | Some apiKeys =>
      if negb (truthy_string (Some apiKeys)) then []
      else filter (fun key => (0 < String.length key)%nat)
             (trim <$> String_split "," apiKeys)
  | None => []
  end.

(** [validateApiKey(apiKey)] *)
Definition validateApiKey (API_KEYS : option string) (apiKey : string) : bool :=
  bool_decide (apiKey ∈ getValidApiKeys API_KEYS).

(** [canActivate(context)] *)
Definition canActivate (API_KEYS : option string) (apiKeyHeader : option string)
    : GuardResult :=
  match extractApiKey apiKeyHeader with
  | None => UnauthorizedException "API key is required"
  | Some apiKey =>
      if negb (validateApiKey API_KEYS apiKey)
      then UnauthorizedException "Invalid API key"
      else Activated
  end.

End Trim.
End ApiKeyGuard.

Module ApiAuthGuard.

(** [canActivate(context)]; [isPublic] is what the reflector finds for the
    route. *)
Definition canActivate (is_whitespace : ascii -> bool) (isPublic : bool)
    (API_KEYS : option string) (apiKeyHeader : option string) : GuardResult :=
  if isPublic then Activated
  else ApiKeyGuard.canActivate is_whitespace API_KEYS apiKeyHeader.

End ApiAuthGuard.

(** ** The vocabulary of the properties *)

(** The section 4.1 table of the specification, as the set of its edges. *)
Definition transition_table : list (PaymentStatus * PaymentStatus) :=
  [ (PENDING, PROCESSING); (PENDING, CANCELLED);
    (PROCESSING, COMPLETED); (PROCESSING, FAILED);
    (COMPLETED, REFUNDED);
    (FAILED, PENDING) ].

(** A store is well formed when every entry sits under the id of its entity
    and no key occurs twice: what [Map.set(payment.id, payment)] maintains. *)
Definition store_wf (m : list (string * PaymentEntity)) : Prop :=
  Forall (fun kv => id (snd kv) = fst kv) m /\ NoDup m.*1.

(** The statuses whose transition stamps [processedAt]. *)
Definition stamps_processedAt (s : PaymentStatus) : bool :=
  match s with
  | COMPLETED | FAILED => true
  | _ => false
  end.

(** Applies the patches one after the other to the payment under
    [paymentId] and collects the entities that [updatePayment] returns; the
    first exception ends the run. *)
Fixpoint update_all (paymentId : string) (dtos : list UpdatePaymentDto)
    : M (list PaymentEntity) :=
  match dtos with
  | [] => ret []
  | dto :: rest =>
      p <- PaymentService.updatePayment paymentId dto ;;
      ps <- update_all paymentId rest ;;
      ret (p :: ps)
  end.

(** The patch [{ status: s }]. *)
Definition status_patch (s : PaymentStatus) : UpdatePaymentDto :=
  {| u_status := Some s; u_metadata := None; u_failureReason := None |}.

(** The requests a service answers one after the other. *)
Inductive Request : Type :=
  | Create (createPaymentDto : CreatePaymentDto)
  | Update (paymentId : string) (updatePaymentDto : UpdatePaymentDto).


(** The filter of a query: none, by customer or by status. *)
Inductive Filter : Type :=
  | NoFilter
  | ByCustomer (customer : string)
  | ByStatus (st : PaymentStatus).

(** The predicate that the query of the filter passes to [Array.filter]. *)
Definition matches (f : Filter) (payment : PaymentEntity) : Prop :=
  match f with
  | NoFilter => True
  | ByCustomer customer => customerId payment = customer
  | ByStatus st => status payment = st
  end.

#[global] Instance matches_dec f payment : Decision (matches f payment).
Proof. destruct f; cbn; apply _. Defined.

(** The stored payments that match the filter, in the order of the [Map]. *)
Definition filtered (f : Filter) (w : World) : list PaymentEntity :=
  filter (matches f) (PaymentRepository.values w).

(** The paginated query of the repository that serves the filter. *)
Definition paginatedQuery (f : Filter) (page limit : Z) (sortBy : string)
    (sortOrder : SortOrder) : M PageResult :=
  match f with
  | NoFilter => PaymentRepository.findPaginated page limit sortBy sortOrder
  | ByCustomer customer =>
      PaymentRepository.findByCustomerIdPaginated customer page limit sortBy sortOrder
  | ByStatus st =>
      PaymentRepository.findByStatusPaginated st page limit sortBy sortOrder
  end.

(** [Math.ceil(total / limit)] for a positive [limit]. *)
Definition totalPages (total limit : Z) : Z := (total + limit - 1) / limit.

(** The values of [sortBy] that [getSortValue] knows. *)
Definition known_sortBy : list string :=
  ["amount"; "status"; "customerId"; "paymentMethod"; "currency";
   "createdAt"; "updatedAt"].

(** The entity that [loadFromFile] constructs from one record of the file. *)
Definition thaw (paymentData : PaymentData) : PaymentEntity :=
  let partial := PaymentRepository.revive paymentData in
  {| id := p_id partial; amount := p_amount partial;
     currency := p_currency partial; paymentMethod := p_paymentMethod partial;
     status := p_status partial; customerId := p_customerId partial;
     description := p_description partial; metadata := p_metadata partial;
     createdAt := Date_of_string (d_createdAt paymentData);
     updatedAt := Date_of_string (d_updatedAt paymentData);
     processedAt := p_processedAt partial;
     failureReason := p_failureReason partial |}.

(** A restart of the process: the [Map] of the new repository is empty,
    nothing is scheduled, the file is the one the old process left. *)
Definition restart (w : World) : World :=
  {| payments := []; file := file w; scheduled := [];
     clock_source := clock_source w; clock_reads := clock_reads w;
     uuid_source := uuid_source w; uuid_draws := uuid_draws w |}.


(** One turn of the loop of [loadFromFile] on the [Map]. *)
Definition load_step (m : list (string * PaymentEntity)) (paymentData : PaymentData)
    : list (string * PaymentEntity) :=
  PaymentRepository.Map_set (d_id paymentData) (thaw paymentData) m.

(** The [Map] after a method call on the object it holds under [ref]. *)
Definition replace_entry (ref : string) (payment : PaymentEntity)
    (m : list (string * PaymentEntity)) : list (string * PaymentEntity) :=
  (fun kv => if String.eqb (fst kv) ref then (fst kv, payment) else kv) <$> m.

(** The file mirror holds what [saveToFile] writes for the present store. *)
Definition file_in_sync (w : World) : Prop :=
  file w = Some ((fun payment => PaymentRepository.stringify (PaymentEntity.toJSON payment))
                 <$> PaymentRepository.values w).

(** The six statuses. *)
Definition all_statuses : list PaymentStatus :=
  [PENDING; PROCESSING; COMPLETED; FAILED; CANCELLED; REFUNDED].

(** The properties of a payment that no method of the entity assigns. *)
Definition same_identity (p p' : PaymentEntity) : Prop :=
  id p' = id p /\ amount p' = amount p /\ currency p' = currency p
  /\ paymentMethod p' = paymentMethod p /\ customerId p' = customerId p
  /\ description p' = description p /\ createdAt p' = createdAt p.

(** What happens to a running service: a request is served, or the
    background processing of a payment resumes after one of its two delays
    ([r1] and [r2] are the random numbers the second part draws). *)
Inductive Event : Type :=
  | Served (request : Request)
  | ProcessingStarted (paymentId : string)
  | ProcessingFinished (paymentId : string) (r1 r2 : float).

(** The world after an event; a request that throws is answered with an
    error and the service goes on. *)
Definition happen (e : Event) (w : World) : World :=
  match e with
  | Served (Create dto) => snd (PaymentService.createPayment dto w)
  | Served (Update paymentId dto) => snd (PaymentService.updatePayment paymentId dto w)
  | ProcessingStarted paymentId =>
      snd (PaymentService.processPaymentAsync_start paymentId w)
  | ProcessingFinished paymentId r1 r2 =>
      snd (PaymentService.processPaymentAsync_finish paymentId r1 r2 w)
  end.

(** The world after a sequence of events. *)
Definition history (events : list Event) (w : World) : World :=
  foldl (fun w e => happen e w) w events.

(** The event is a request (not a step of the background processing). *)
Definition is_request (e : Event) : Prop :=
  match e with
  | Served _ => True
  | _ => False
  end.

(** What the service does to the payment it holds under [paymentId] and to
    nothing else: the entry is replaced where it stands, the file mirror is
    written, the identity of the payment, the two sources and the scheduled
    work are kept, the counters do not go back. *)
Definition touched (paymentId : string) (p p' : PaymentEntity) (w w' : World) : Prop :=
  payments w' = replace_entry paymentId p' (payments w)
  /\ file_in_sync w'
  /\ same_identity p p'
  /\ clock_source w' = clock_source w
  /\ uuid_source w' = uuid_source w
  /\ scheduled w' = scheduled w
  /\ (clock_reads w <= clock_reads w')%nat
  /\ (uuid_draws w <= uuid_draws w')%nat.

(** One edge of the transition table. *)
Definition table_step (a b : PaymentStatus) : Prop := (a, b) ∈ transition_table.

(** The statuses of a payment that went through the processing. *)
Definition processed (s : PaymentStatus) : bool :=
  match s with
  | COMPLETED | FAILED | REFUNDED => true
  | _ => false
  end.

(** A payment whose status says it was processed carries the time. *)
Definition processed_stamped (p : PaymentEntity) : Prop :=
  processed (status p) = true -> is_Some (processedAt p).

(** The service method that serves the filter. *)
Definition serviceQuery (f : Filter) (paginationDto : PaginationDto)
    : M PaginatedResponseDto :=
  match f with
  | NoFilter => PaymentService.getAllPaymentsPaginated paginationDto
  | ByCustomer customer =>
      PaymentService.getPaymentsByCustomerIdPaginated customer paginationDto
  | ByStatus st => PaymentService.getPaymentsByStatusPaginated st paginationDto
  end.

(** The filter that [getAllPayments] of the controller applies. *)
Definition controller_filter (queryDto : PaymentQueryDto) : Filter :=
  match q_customerId queryDto, q_status queryDto with
  | Some customer, _ =>
      if String.eqb customer "" then
        match q_status queryDto with
        | Some st => ByStatus st
        | None => NoFilter
        end
      else ByCustomer customer
  | None, Some st => ByStatus st
  | None, None => NoFilter
  end.

(** The filtered payments in the order of the query. *)
Definition sorted_payments (f : Filter) (paginationDto : PaginationDto) (w : World)
    : list PaymentEntity :=
  Array_sort (PaymentRepository.comparator (pg_sortBy paginationDto)
                (pg_sortOrder paginationDto))
    (filtered f w).

(** The [data] of the page [page] of a query. *)
Definition page_data (f : Filter) (paginationDto : PaginationDto) (page : Z) (w : World)
    : list PaymentEntity :=
  data (PaymentRepository.paginateResults (sorted_payments f paginationDto w)
          page (pg_limit paginationDto)).

(** The same query for another page. *)
Definition at_page (paginationDto : PaginationDto) (page : Z) : PaginationDto :=
  {| pg_page := page; pg_limit := pg_limit paginationDto;
     pg_sortBy := pg_sortBy paginationDto;
     pg_sortOrder := pg_sortOrder paginationDto |}.

(** The number of occurrences of a character in a string. *)
Fixpoint occurrences (c : ascii) (s : string) : nat :=
  match s with
  | EmptyString => 0%nat
  | String c' s' => ((if Ascii.eqb c c' then 1 else 0) + occurrences c s')%nat
  end.

(** The position of a status in the alphabetical order of the values. *)
Definition alphabetical_rank (s : PaymentStatus) : Z :=
  match s with
  | CANCELLED => 0
  | COMPLETED => 1
  | FAILED => 2
  | PENDING => 3
  | PROCESSING => 4
  | REFUNDED => 5
  end.

(** The values of [sortBy] for which [getSortValue] returns a string. *)
Definition text_sortBy : list string :=
  ["status"; "customerId"; "paymentMethod"; "currency"].

(** The number [getSortValue] returns for the other values of [sortBy]. *)
Definition numeric_key (sortBy : string) (payment : PaymentEntity) : Z :=
  match PaymentRepository.getSortValue payment sortBy with
  | SNum n => n
  | SStr _ => 0
  end.

(** The query of the repository without pages that serves the filter. *)
Definition finder (f : Filter) : M (list PaymentEntity) :=
  match f with
  | NoFilter => PaymentRepository.findAll
  | ByCustomer customer => PaymentRepository.findByCustomerId customer
  | ByStatus st => PaymentRepository.findByStatus st
  end.

(** The clock never goes back. *)
Definition monotone_clock (w : World) : Prop :=
  forall n m, (n <= m)%nat -> clock_source w n <= clock_source w m.

(** The payment was not updated before it was created, and not after the
    next reading of the clock. *)
Definition timestamps_ordered (w : World) (p : PaymentEntity) : Prop :=
  createdAt p <= updatedAt p /\ updatedAt p <= clock_source w (clock_reads w).

(** ** Fixtures *)

(** A uuid source for the examples: the n-th uuid has n characters. *)
Fixpoint tally (n : nat) : string :=
  match n with
  | O => ""
  | S k => String "u" (tally k)
  end.

(** A clock that advances by one millisecond at every reading. *)
Definition ticking_clock (n : nat) : Date := Z.of_nat n + 1700000000000.

(** A credit-card payment of customer c1, never updated. *)
Definition sample_payment (key : string) (st : PaymentStatus) (amt : Z) : PaymentEntity :=
  {| id := key; amount := amt; currency := "USD"; paymentMethod := CREDIT_CARD;
     status := st; customerId := "c1"; description := None; metadata := None;
     createdAt := 1699999999000; updatedAt := 1699999999000;
     processedAt := None; failureReason := None |}.

(** A world with the given store, no file, and fresh oracles. *)
Definition world_of (m : list (string * PaymentEntity)) : World :=
  {| payments := m; file := None; scheduled := [];
     clock_source := ticking_clock; clock_reads := 0;
     uuid_source := tally; uuid_draws := 0 |}.

(** Three payments with the amounts 300, 100 and 200, in this order. *)
Definition three_payments : list (string * PaymentEntity) :=
  [ ("a", sample_payment "a" PENDING 300);
    ("b", sample_payment "b" PENDING 100);
    ("c", sample_payment "c" PENDING 200) ].

(** A failed payment with every optional property set. *)
Definition settled_payment : PaymentEntity :=
  {| id := "p1"; amount := 2500; currency := "EUR"; paymentMethod := DEBIT_CARD;
     status := FAILED; customerId := "c7"; description := Some "order 12";
     metadata := Some {[ "orderId" := JStr "o-12" ]};
     createdAt := 1700000000000; updatedAt := 1700000004321;
     processedAt := Some 1700000004321;
     failureReason := Some "Card declined" |}.

(** White space of the ASCII range: tab, line feed, vertical tab, form
    feed, carriage return and space. *)
Definition ascii_whitespace (c : ascii) : bool :=
  existsb (Ascii.eqb c) ["009"; "010"; "011"; "012"; "013"; " "]%char.

(** ** Tactics *)

(** Unfolds the service, the repository and the monad. *)
Ltac run :=
  unfold PaymentService.updatePayment, PaymentService.getPaymentById,
    PaymentService.createPayment, PaymentService.processPaymentAsync,
    PaymentService.mutate, PaymentRepository.update, PaymentRepository.create,
    PaymentRepository.findById, PaymentRepository.saveToFile,
    PaymentEntity.updateStatus, PaymentEntity.updateMetadata, PaymentEntity.new,
    or_new_Date, new_Date, uuidv4, bind, ret, throw; cbn.

(** Unfolds the background processing as well. *)
Ltac run_simulator :=
  unfold PaymentService.processPaymentAsync_start,
    PaymentService.processPaymentAsync_finish,
    PaymentService.processPaymentAsync_rollback,
    PaymentService.simulatePaymentProcessing,
    PaymentService.try_catch;
  run.

(** Closes [touched] for the entity the run left under [paymentId];
    [after_mutate] is the lemma on the store after the method calls. *)
Ltac touch after_mutate Hwf Hget Hkey :=
  unfold touched; cbn;
  split;
  [ first
      [ eapply (after_mutate _ _ (mkPayment _ _ _ _ _ _ _ _ _ _ _ _) []);
        [exact Hwf | exact Hget | exact Hkey | reflexivity]
      | eapply (after_mutate _ _ (mkPayment _ _ _ _ _ _ _ _ _ _ _ _) [_]);
        [exact Hwf | exact Hget | exact Hkey | reflexivity]
      | eapply (after_mutate _ _ (mkPayment _ _ _ _ _ _ _ _ _ _ _ _) [_; _]);
        [exact Hwf | exact Hget | exact Hkey | reflexivity]
      | eapply (after_mutate _ _ (mkPayment _ _ _ _ _ _ _ _ _ _ _ _) [_; _; _]);
        [exact Hwf | exact Hget | exact Hkey | reflexivity]
      | eapply (after_mutate _ _ _ []);
        [exact Hwf | exact Hget | exact Hkey | reflexivity] ]
  | split; [reflexivity | repeat split; cbn; lia] ].

(** Takes the cases of an event on a well-formed store; the four lemmas say
    what a creation, an update and the two steps of the processing do. *)
Ltac event_cases created updated started finished e w Hwf :=
  let dto := fresh "dto" in
  let k := fresh "k" in
  let r1 := fresh "r1" in
  let r2 := fresh "r2" in
  let p := fresh "p" in
  let p' := fresh "p'" in
  let w' := fresh "w'" in
  let ex := fresh "ex" in
  let Hrun := fresh "Hrun" in
  let Hget := fresh "Hget" in
  let Ht := fresh "Ht" in
  let Htable := fresh "Htable" in
  let Heff := fresh "Heff" in
  destruct e as [[dto | k dto] | k | k r1 r2]; cbn [happen];
  [ destruct (created dto w) as (p & w' & Hrun & Heff)
  | destruct (updated w k dto Hwf)
      as [[ex Hrun] | (p & p' & w' & Hget & Htable & Hrun & Ht & Heff)]
  | destruct (started w k Hwf)
      as [Hrun | (p & p' & w' & Hget & Hrun & Ht & Heff)]
  | destruct (finished w k r1 r2 Hwf)
      as [Hrun | (p & p' & w' & Hget & Hrun & Ht & Heff)] ];
  rewrite Hrun; cbn [snd].

(** ** Facts about the [Map], the sort and the slice *)

Lemma isValidStatusTransition_table cur new :
  PaymentService.isValidStatusTransition cur new = true <-> (cur, new) ∈ transition_table.
Proof.
  unfold transition_table.
  split.
  - destruct cur, new; cbn; intros H; try discriminate H; set_solver.
  - intros H. repeat (apply elem_of_cons in H as [H | H]; [by inversion H |]).
    by apply elem_of_nil in H.
Qed.

Lemma Map_get_replace ref p p' (m : list (string * PaymentEntity)) :
  PaymentRepository.Map_get ref m = Some p ->
  PaymentRepository.Map_get ref
    ((fun kv => if String.eqb (fst kv) ref then (fst kv, p') else kv) <$> m) = Some p'.
Proof.
  induction m as [| [k v] m IH]; cbn; [discriminate |].
  rewrite (String.eqb_sym k ref).
  destruct (String.eqb ref k) eqn:E; cbn.
  - by rewrite E.
  - rewrite E. exact IH.
Qed.

Lemma Map_get_set_eq k v (m : list (string * PaymentEntity)) :
  PaymentRepository.Map_get k (PaymentRepository.Map_set k v m) = Some v.
Proof.
  induction m as [| [k' v'] m IH]; cbn.
  - by rewrite String.eqb_refl.
  - destruct (String.eqb k k') eqn:E; cbn; rewrite ?E, ?String.eqb_refl; auto.
Qed.

Lemma Map_get_set_ne k k' v (m : list (string * PaymentEntity)) :
  k <> k' ->
  PaymentRepository.Map_get k (PaymentRepository.Map_set k' v m) =
  PaymentRepository.Map_get k m.
Proof.
  intros Hne. apply String.eqb_neq in Hne.
  induction m as [| [k2 v2] m IH]; cbn.
  - by rewrite Hne.
  - destruct (String.eqb k' k2) eqn:E; cbn.
    + apply String.eqb_eq in E. subst k2. by rewrite Hne.
    + destruct (String.eqb k k2); auto.
Qed.

Lemma Map_set_same k v (m : list (string * PaymentEntity)) :
  PaymentRepository.Map_get k m = Some v -> PaymentRepository.Map_set k v m = m.
Proof.
  induction m as [| [k' v'] m IH]; cbn; [discriminate |].
  destruct (String.eqb k k') eqn:E.
  - apply String.eqb_eq in E. subst k'. by intros [= ->].
  - intros H. by rewrite IH.
Qed.

Lemma Map_get_key_id k p (m : list (string * PaymentEntity)) :
  store_wf m -> PaymentRepository.Map_get k m = Some p -> id p = k.
Proof.
  intros [Hid _]. induction m as [| [k' v'] m IH]; cbn; [discriminate |].
  apply Forall_cons in Hid as [Hk Hid]. cbn in Hk.
  destruct (String.eqb k k') eqn:E.
  - apply String.eqb_eq in E. intros [= <-]. congruence.
  - auto.
Qed.

Section ArraySortFacts.
Context {A : Type} (comparefn : A -> A -> Z).

Lemma sink_Permutation x before : sink comparefn x before ≡ₚ x :: before.
Proof.
  induction before as [| y before IH]; cbn; [done |].
  destruct (0 <? comparefn y x); [| done].
  rewrite IH. apply Permutation_swap.
Qed.

Lemma foldl_sink_Permutation l : forall acc,
  foldl (fun before x => sink comparefn x before) acc l ≡ₚ l ++ acc.
Proof.
  induction l as [| x l IH]; intros acc; cbn; [done |].
  rewrite IH, sink_Permutation. by rewrite Permutation_middle.
Qed.

Lemma Array_sort_Permutation l : Array_sort comparefn l ≡ₚ l.
Proof.
  unfold Array_sort. rewrite reverse_Permutation, foldl_sink_Permutation.
  by rewrite app_nil_r.
Qed.

Lemma Array_sort_length l : length (Array_sort comparefn l) = length l.
Proof. by rewrite Array_sort_Permutation. Qed.

(** [R x y]: [x] may stand before [y] in the result. *)
Context (R : relation A) `{!Transitive R}.
Hypothesis comparefn_pos : forall y x, 0 < comparefn y x -> R x y.
Hypothesis comparefn_neg : forall y x, comparefn y x <= 0 -> R y x.

Lemma sink_sorted x before :
  StronglySorted (flip R) before -> StronglySorted (flip R) (sink comparefn x before).
Proof.
  induction 1 as [| y before Hs IH Hy]; cbn.
  - repeat constructor.
  - destruct (0 <? comparefn y x) eqn:E.
    + apply Z.ltb_lt in E. constructor; [exact IH |].
      rewrite sink_Permutation. constructor; [| exact Hy].
      by apply comparefn_pos.
    + apply Z.ltb_ge in E. apply comparefn_neg in E.
      constructor; [by constructor |].
      constructor; [exact E |].
      eapply Forall_impl; [exact Hy |]. intros z Hz. cbn in *. by etransitivity.
Qed.

Lemma foldl_sink_sorted l : forall acc,
  StronglySorted (flip R) acc ->
  StronglySorted (flip R) (foldl (fun before x => sink comparefn x before) acc l).
Proof.
  induction l as [| x l IH]; intros acc Hacc; cbn; [done |].
  by apply IH, sink_sorted.
Qed.

Lemma StronglySorted_reverse (l : list A) :
  StronglySorted (flip R) l -> StronglySorted R (reverse l).
Proof.
  induction 1 as [| x l Hs IH Hx]; [constructor |].
  rewrite reverse_cons.
  apply StronglySorted_app_2; [| exact IH | repeat constructor].
  intros a b Ha Hb. apply list_elem_of_singleton in Hb as ->.
  rewrite elem_of_reverse in Ha.
  rewrite Forall_forall in Hx. exact (Hx a Ha).
Qed.

Lemma Array_sort_sorted l : StronglySorted R (Array_sort comparefn l).
Proof. apply StronglySorted_reverse, foldl_sink_sorted. constructor. Qed.

End ArraySortFacts.

Lemma StronglySorted_sublist {A} (R : relation A) (l1 l2 : list A) :
  l1 `sublist_of` l2 -> StronglySorted R l2 -> StronglySorted R l1.
Proof.
  induction 1 as [| x l1 l2 Hsub IH | x l1 l2 Hsub IH]; intros Hs.
  - constructor.
  - apply StronglySorted_inv in Hs as [Hs Hx]. constructor; [auto |].
    eapply Forall_forall. intros y Hy.
    eapply (proj1 (Forall_forall _ _) Hx). by eapply sublist_subseteq.
  - apply StronglySorted_inv in Hs as [Hs _]. auto.
Qed.

Lemma sink_ext {A} (c1 c2 : A -> A -> Z) x before :
  (forall a b, c1 a b = c2 a b) -> sink c1 x before = sink c2 x before.
Proof.
  intros Hext. induction before as [| y before IH]; cbn; [done |].
  by rewrite Hext, IH.
Qed.

Lemma Array_sort_ext {A} (c1 c2 : A -> A -> Z) l :
  (forall a b, c1 a b = c2 a b) -> Array_sort c1 l = Array_sort c2 l.
Proof.
  intros Hext. unfold Array_sort. f_equal.
  generalize (@nil A). induction l as [| x l IH]; intros acc; cbn; [done |].
  by rewrite (sink_ext c1 c2 x acc Hext), IH.
Qed.

Lemma StronglySorted_strict {A} (key : A -> Z) (l : list A) :
  StronglySorted (fun a b => key a <= key b) l ->
  NoDup (key <$> l) ->
  StronglySorted (fun a b => key a < key b) l.
Proof.
  induction 1 as [| x l Hs IH Hx]; intros Hnd; [constructor |].
  rewrite fmap_cons in Hnd. apply NoDup_cons in Hnd as [Hnotin Hnd].
  constructor; [auto |].
  rewrite Forall_forall in *. intros y Hy.
  assert (key x <> key y).
  { intros Heq. apply Hnotin. rewrite Heq. by apply list_elem_of_fmap_2. }
  specialize (Hx y Hy). cbn in Hx. lia.
Qed.

Lemma sort_by_amount_asc_sorted (l : list PaymentEntity) :
  StronglySorted (fun a b => amount a <= amount b)
    (Array_sort (PaymentRepository.comparator "amount" asc) l).
Proof.
  apply Array_sort_sorted.
  - intros a b c Hab Hbc. lia.
  - intros y x. unfold PaymentRepository.comparator. cbn.
    destruct (Z.ltb_spec (amount x) (amount y)); lia.
  - intros y x. unfold PaymentRepository.comparator. cbn.
    destruct (Z.ltb_spec (amount x) (amount y)); lia.
Qed.

Lemma Array_slice_sublist {A} (l : list A) start end_ :
  Array_slice l start end_ `sublist_of` l.
Proof.
  unfold Array_slice. etransitivity; [apply sublist_take | apply sublist_drop].
Qed.

Lemma Array_slice_nonneg {A} (l : list A) (start limit : Z) :
  0 <= start -> 0 <= limit ->
  Array_slice l start (start + limit)
  = take (Z.to_nat limit) (drop (Z.to_nat start) l).
Proof.
  intros Hstart Hlimit. unfold Array_slice.
  destruct (Z.ltb_spec start 0) as [? | _]; [lia |].
  destruct (Z.ltb_spec (start + limit) 0) as [? | _]; [lia |].
  destruct (Z_le_gt_dec start (Z.of_nat (length l))) as [Hle | Hgt].
  - rewrite (Z.min_l start) by lia.
    destruct (Z_le_gt_dec (start + limit) (Z.of_nat (length l))) as [Hle' | Hgt'].
    + rewrite Z.min_l by lia. f_equal. lia.
    + rewrite Z.min_r by lia.
      rewrite !take_ge; [done | |]; rewrite length_drop; lia.
  - rewrite (Z.min_r start) by lia.
    rewrite !drop_ge by lia. by rewrite !take_nil.
Qed.

Lemma Array_slice_page_0 {A} (l : list A) (limit : Z) :
  Array_slice l ((0 - 1) * limit) ((0 - 1) * limit + limit) = [].
Proof.
  unfold Array_slice.
  replace ((0 - 1) * limit + limit) with 0 by lia.
  cbn [Z.ltb Z.compare]. rewrite (Z.min_l 0) by lia.
  replace (Z.to_nat _) with 0%nat; [done |].
  destruct (Z.ltb_spec ((0 - 1) * limit) 0); lia.
Qed.

(** ** The ISO-8601 string of a time value *)

Example toISOString_epoch :
  ISODate.toISOString 0 = "1970-01-01T00:00:00.000Z".
Proof. reflexivity. Qed.

Example toISOString_2024 :
  ISODate.toISOString 1705314600123 = "2024-01-15T10:30:00.123Z".
Proof. reflexivity. Qed.

Example toISOString_leap_day :
  ISODate.toISOString 951782400000 = "2000-02-29T00:00:00.000Z".
Proof. reflexivity. Qed.

Example toISOString_before_year_0 :
  ISODate.toISOString (-62198755200000) = "-000001-01-01T00:00:00.000Z".
Proof. reflexivity. Qed.

Example toISOString_max :
  ISODate.toISOString 8640000000000000 = "+275760-09-13T00:00:00.000Z".
Proof. reflexivity. Qed.

Example parse_2024 :
  ISODate.parse "2024-01-15T10:30:00.123Z" = Some 1705314600123.
Proof. reflexivity. Qed.

Example parse_min :
  ISODate.parse (ISODate.toISOString (-8640000000000000)) = Some (-8640000000000000).
Proof. reflexivity. Qed.

Example parse_garbage : ISODate.parse "yesterday" = None.
Proof. reflexivity. Qed.













(** ** C1: an update with a forbidden status change is rejected as a whole *)

(** C1. For every stored payment [p] and every patch whose status [s] makes
    [(status p, s)] a pair outside the transition table, [updatePayment]
    throws the invalid-transition exception carrying both statuses, and the
    world it leaves is the world it found: the stored entity (status,
    metadata, [updatedAt]), the file mirror and the clock are untouched, also
    when the same patch carries metadata. *)
Theorem updatePayment_invalid_transition_rejected
    (w : World) (paymentId : string) (p : PaymentEntity)
    (dto : UpdatePaymentDto) (s : PaymentStatus) :
  PaymentRepository.Map_get paymentId (payments w) = Some p ->
  u_status dto = Some s ->
  (status p, s) ∉ transition_table ->
  PaymentService.updatePayment paymentId dto w
  = (Throw (InvalidPaymentStatusException (status p) s), w).
Proof.
  intros Hget Hs Hnot.
  assert (Hv : PaymentService.isValidStatusTransition (status p) s = false).
  { destruct (PaymentService.isValidStatusTransition (status p) s) eqn:E; [| done].
    by apply isValidStatusTransition_table in E. }
  run. rewrite Hget, Hs. cbn. by rewrite Hv.
Qed.

Lemma updatePayment_invalid_transition_rejected_witness :
  let w := world_of [("p1", sample_payment "p1" PENDING 1000)] in
  let dto := {| u_status := Some COMPLETED;
                u_metadata := Some {[ "a" := JNum 1 ]};
                u_failureReason := None |} in
  PaymentService.updatePayment "p1" dto w
  = (Throw (InvalidPaymentStatusException PENDING COMPLETED), w).
Proof.
  intros w dto.
  apply (updatePayment_invalid_transition_rejected w "p1"
           (sample_payment "p1" PENDING 1000) dto COMPLETED).
  - reflexivity.
  - reflexivity.
  - vm_compute. intros H. repeat (apply elem_of_cons in H as [H | H]; [discriminate H |]).
    by apply elem_of_nil in H.
Defined.

(** ** C2: when [processedAt] is assigned *)

(** C2, as the specification states it, fails: a payment that failed, was
    retried and then completed carries the time of the completion, not the
    time of the failure at which [processedAt] was first set. *)
Lemma processedAt_reassigned_after_retry :
  let w := world_of [("p1", sample_payment "p1" PROCESSING 1000)] in
  let updates := update_all "p1"
                   [status_patch FAILED; status_patch PENDING;
                    status_patch PROCESSING; status_patch COMPLETED] in
  (processedAt <$>
     match fst (updates w) with Ok ps => ps | Throw _ => [] end)
  = [Some 1700000000001; Some 1700000000001;
     Some 1700000000001; Some 1700000000005]
  /\ ~ (forall (this : PaymentEntity) (s : PaymentStatus) (reason : option string)
          (w : World) (t : Date),
          processedAt this = Some t ->
          exists p' w', PaymentEntity.updateStatus s reason this w = (Ok p', w')
                        /\ processedAt p' = Some t).
Proof.
  split; [by vm_compute |].
  intros H.
  destruct (H {| id := "p1"; amount := 1; currency := "USD";
                 paymentMethod := CREDIT_CARD; status := PROCESSING;
                 customerId := "c1"; description := None; metadata := None;
                 createdAt := 0; updatedAt := 0; processedAt := Some 0;
                 failureReason := None |}
              COMPLETED None (world_of []) 0 eq_refl) as (p' & w' & Hrun & Hp).
  vm_compute in Hrun. injection Hrun as <- _. vm_compute in Hp. discriminate Hp.
Qed.

(** C2, amended. A transition stamps [processedAt] with a fresh reading of
    the clock exactly when its target is COMPLETED or FAILED, every time and
    not only the first; a transition to any other status, and a metadata
    merge, leave [processedAt] as it was; so once set it is never unset. *)
Theorem processedAt_assignment
    (this : PaymentEntity) (s : PaymentStatus) (reason : option string)
    (patch : gmap string json) (w : World) :
  (exists p' w',
      PaymentEntity.updateStatus s reason this w = (Ok p', w')
      /\ processedAt p' =
           (if stamps_processedAt s
            then Some (clock_source w (S (clock_reads w)))
            else processedAt this)
      /\ (is_Some (processedAt this) -> is_Some (processedAt p')))
  /\ (exists p' w',
      PaymentEntity.updateMetadata patch this w = (Ok p', w')
      /\ processedAt p' = processedAt this).
Proof.
  split.
  - destruct s; run; eexists _, _; (split; [reflexivity |]); cbn; split; eauto.
  - run. eexists _, _. split; reflexivity.
Qed.

Lemma processedAt_assignment_witness :
  exists p' w',
    PaymentEntity.updateStatus FAILED None
      (sample_payment "p1" PROCESSING 1000) (world_of []) = (Ok p', w')
    /\ processedAt p' = Some 1700000000001.
Proof.
  destruct (proj1 (processedAt_assignment (sample_payment "p1" PROCESSING 1000)
                     FAILED None ∅ (world_of [])))
    as (p' & w' & Hrun & Hp & _).
  exists p', w'. split; [exact Hrun | exact Hp].
Defined.

(** ** C3: what [createPayment] returns *)








(** ** C4: the metadata merge *)

(** C4. After [updateMetadata] every key of the patch maps to the value of
    the patch and every other key maps to what it mapped to before; merging
    [{a:1}] and then [{b:2}] into a payment without metadata yields
    [{a:1, b:2}]. *)
Theorem updateMetadata_merge
    (this : PaymentEntity) (patch : gmap string json) (w : World) :
  (exists p' w' m',
      PaymentEntity.updateMetadata patch this w = (Ok p', w')
      /\ metadata p' = Some m'
      /\ (forall k v, patch !! k = Some v -> m' !! k = Some v)
      /\ (forall k, patch !! k = None ->
                    m' !! k = default ∅ (metadata this) !! k))
  /\ (default ∅ (metadata this) = ∅ ->
      exists p1 w1 p2 w2,
        PaymentEntity.updateMetadata {[ "a" := JNum 1 ]} this w = (Ok p1, w1)
        /\ PaymentEntity.updateMetadata {[ "b" := JNum 2 ]} p1 w1 = (Ok p2, w2)
        /\ metadata p2 = Some {[ "a" := JNum 1; "b" := JNum 2 ]}
        /\ metadata p2 <> Some {[ "b" := JNum 2 ]}).
Proof.
  split.
  - run. eexists _, _, _. split; [reflexivity |]. cbn. split; [reflexivity |].
    unfold PaymentEntity.spread. split.
    + intros k v Hk. by apply lookup_union_Some_l.
    + intros k Hk. by apply lookup_union_r.
  - intros Hempty. run. eexists _, _, _, _.
    split; [reflexivity |]. split; [reflexivity |]. cbn.
    unfold PaymentEntity.spread. rewrite Hempty. cbn.
    assert (Hm : ({[ "b" := JNum 2 ]} ∪ ({[ "a" := JNum 1 ]} ∪ ∅) : gmap string json)
                 = {[ "a" := JNum 1; "b" := JNum 2 ]}).
    { apply map_eq. intros k.
      destruct (decide (k = "a")) as [-> | Ha]; [by vm_compute |].
      destruct (decide (k = "b")) as [-> | Hb]; [by vm_compute |].
      rewrite !lookup_union, !lookup_insert_ne, !lookup_singleton_ne by done.
      by rewrite !lookup_empty. }
    rewrite Hm. split; [reflexivity |].
    intros Heq. apply (f_equal (fun o => m ← o; m !! "a")) in Heq.
    vm_compute in Heq. discriminate Heq.
Qed.

Lemma updateMetadata_merge_witness :
  let this := sample_payment "p1" PENDING 1000 in
  exists p1 w1 p2 w2,
    PaymentEntity.updateMetadata {[ "a" := JNum 1 ]} this (world_of []) = (Ok p1, w1)
    /\ PaymentEntity.updateMetadata {[ "b" := JNum 2 ]} p1 w1 = (Ok p2, w2)
    /\ metadata p2 = Some {[ "a" := JNum 1; "b" := JNum 2 ]}
    /\ metadata p2 <> Some {[ "b" := JNum 2 ]}.
Proof.
  intros this.
  apply (proj2 (updateMetadata_merge this ∅ (world_of []))).
  reflexivity.
Defined.

(** ** C5: the page a paginated query returns *)

Lemma filter_matches_NoFilter (l : list PaymentEntity) :
  filter (matches NoFilter) l = l.
Proof.
  induction l as [| x l IH]; [done |].
  rewrite filter_cons_True by exact I. by rewrite IH.
Qed.

Lemma paginatedQuery_unfold f page limit sortBy sortOrder w :
  paginatedQuery f page limit sortBy sortOrder w
  = (Ok (PaymentRepository.paginateResults
           (Array_sort (PaymentRepository.comparator sortBy sortOrder) (filtered f w))
           page limit), w).
Proof.
  destruct f; cbn; unfold filtered.
  - unfold PaymentRepository.findPaginated. by rewrite filter_matches_NoFilter.
  - reflexivity.
  - reflexivity.
Qed.

(** C5, as stated, fails for a negative page: [slice] counts a negative
    index from the end of the array, so page -1 with limit 1 over three
    payments returns the second payment of the sorted list, not the empty
    slice. *)
Lemma negative_page_not_empty :
  fst (paginatedQuery NoFilter (-1) 1 "amount" asc (world_of three_payments))
  = Ok {| data := [sample_payment "c" PENDING 200]; total := 3 |}
  /\ ~ (forall (w : World) (f : Filter) (page limit : Z) (sortBy : string)
          (sortOrder : SortOrder) (r : PageResult),
          fst (paginatedQuery f page limit sortBy sortOrder w) = Ok r ->
          ~ (1 <= page <= totalPages (total r) limit) ->
          data r = []).
Proof.
  split; [by vm_compute |]. intros H.
  specialize (H (world_of three_payments) NoFilter (-1) 1 "amount" asc _ eq_refl).
  cbn [total PaymentRepository.paginateResults] in H.
  specialize (H ltac:(lia)). vm_compute in H. discriminate H.
Qed.

(** C5, amended. For every store, filter, page and limit the paginated query
    succeeds without changing anything and returns as [total] the number of
    payments that match the filter, whatever page and limit are. For
    [page >= 1] and [limit >= 0] its [data] is the slice of the filtered and
    then sorted list that starts at index [(page-1)*limit] and has at most
    [limit] elements; with a positive limit it is empty for every page
    beyond [ceil(total/limit)]; it is empty for page 0. (For a negative page
    or limit the slice is taken from the end of the list.) *)
Theorem paginatedQuery_page
    (w : World) (f : Filter) (page limit : Z) (sortBy : string) (sortOrder : SortOrder) :
  let sorted :=
    Array_sort (PaymentRepository.comparator sortBy sortOrder) (filtered f w) in
  exists r,
    paginatedQuery f page limit sortBy sortOrder w = (Ok r, w)
    /\ total r = Z.of_nat (length (filtered f w))
    /\ sorted ≡ₚ filtered f w
    /\ (1 <= page -> 0 <= limit ->
        data r = take (Z.to_nat limit) (drop (Z.to_nat ((page - 1) * limit)) sorted)
        /\ Z.of_nat (length (data r)) <= limit)
    /\ (0 < limit -> totalPages (total r) limit < page -> data r = [])
    /\ (page = 0 -> data r = []).
Proof.
  intros sorted. eexists. split; [apply paginatedQuery_unfold |].
  fold sorted. unfold PaymentRepository.paginateResults. cbn [data total].
  assert (Hlen : length sorted = length (filtered f w))
    by apply Array_sort_length.
  split; [by rewrite Hlen |].
  split; [apply Array_sort_Permutation |].
  split; [| split].
  - intros Hpage Hlimit. rewrite Array_slice_nonneg by nia.
    split; [done |]. rewrite length_take. lia.
  - intros Hlimit Hpage. rewrite Hlen in Hpage. unfold totalPages in Hpage.
    assert (Hq : 0 <= (Z.of_nat (length (filtered f w)) + limit - 1) / limit).
    { apply Z.div_pos; lia. }
    pose proof (Z.div_mod (Z.of_nat (length (filtered f w)) + limit - 1) limit
                  ltac:(lia)) as Hdm.
    pose proof (Z.mod_pos_bound (Z.of_nat (length (filtered f w)) + limit - 1) limit
                  ltac:(lia)) as Hmod.
    rewrite Array_slice_nonneg by nia.
    rewrite drop_ge; [apply take_nil |]. rewrite Hlen. nia.
  - intros ->. apply Array_slice_page_0.
Qed.

Lemma paginatedQuery_page_witness :
  exists r r4,
    paginatedQuery (ByCustomer "c1") 2 1 "amount" asc (world_of three_payments)
    = (Ok r, world_of three_payments)
    /\ total r = 3
    /\ data r = [sample_payment "c" PENDING 200]
    /\ paginatedQuery (ByCustomer "c1") 4 1 "amount" asc (world_of three_payments)
      = (Ok r4, world_of three_payments)
    /\ total r4 = 3
    /\ data r4 = [].
Proof.
  destruct (paginatedQuery_page (world_of three_payments) (ByCustomer "c1")
              2 1 "amount" asc) as (r & Hrun & Htotal & _ & Hdata & _ & _).
  destruct (paginatedQuery_page (world_of three_payments) (ByCustomer "c1")
              4 1 "amount" asc) as (r4 & Hrun4 & Htotal4 & _ & _ & Hout & _).
  destruct (Hdata ltac:(lia) ltac:(lia)) as [Hd _].
  exists r, r4.
  split; [exact Hrun |]. split; [rewrite Htotal; by vm_compute |].
  split; [rewrite Hd; by vm_compute |].
  split; [exact Hrun4 |]. split; [rewrite Htotal4; by vm_compute |].
  apply Hout; [lia |]. rewrite Htotal4. by vm_compute.
Defined.

(** ** C6: the order of the result *)

Lemma getSortValue_unknown payment sortBy :
  sortBy ∉ known_sortBy ->
  PaymentRepository.getSortValue payment sortBy
  = PaymentRepository.getSortValue payment "createdAt".
Proof.
  intros Hnot. unfold PaymentRepository.getSortValue.
  repeat match goal with
  | |- context [String.eqb sortBy ?k] =>
      destruct (String.eqb_spec sortBy k) as [-> | _];
      [exfalso; apply Hnot; unfold known_sortBy; set_solver |]
  end.
  reflexivity.
Qed.

(** The result does not depend on the sorting algorithm of the engine: with
    pairwise distinct amounts, the one permutation of the input that
    increases in amount is the list [Array_sort] returns. *)
Lemma sort_by_amount_asc_unique (l l' : list PaymentEntity) :
  NoDup (amount <$> l) ->
  l' ≡ₚ l ->
  StronglySorted (fun a b => amount a < amount b) l' ->
  l' = Array_sort (PaymentRepository.comparator "amount" asc) l.
Proof.
  intros Hnd Hperm Hsorted.
  apply (StronglySorted_unique_strong (fun a b => amount a < amount b)).
  - intros x1 x2 _ _ H12 H21. lia.
  - exact Hsorted.
  - apply StronglySorted_strict; [apply sort_by_amount_asc_sorted |].
    by rewrite Array_sort_Permutation.
  - by rewrite Array_sort_Permutation.
Qed.

(** C6. When the stored payments have pairwise distinct amounts,
    [findPaginated] with [sortBy = amount] and [sortOrder = asc] returns
    payments in strictly increasing order of amount, and all of them when
    the first page is large enough; and for every [sortBy] that is not one
    of the seven known keys every paginated query returns exactly what it
    returns for [sortBy = createdAt]. *)
Theorem findPaginated_order (w : World) (page limit : Z) :
  (NoDup (amount <$> PaymentRepository.values w) ->
   exists r,
     PaymentRepository.findPaginated page limit "amount" asc w = (Ok r, w)
     /\ StronglySorted Z.lt (amount <$> data r)
     /\ (page = 1 -> Z.of_nat (length (PaymentRepository.values w)) <= limit ->
         data r ≡ₚ PaymentRepository.values w))
  /\ (forall (sortBy : string) (sortOrder : SortOrder) (f : Filter),
        sortBy ∉ known_sortBy ->
        paginatedQuery f page limit sortBy sortOrder w
        = paginatedQuery f page limit "createdAt" sortOrder w).
Proof.
  split.
  - intros Hnd. eexists. split; [reflexivity |].
    unfold PaymentRepository.paginateResults. cbn [data].
    set (sorted := Array_sort _ _).
    assert (Hperm : sorted ≡ₚ PaymentRepository.values w)
      by apply Array_sort_Permutation.
    split.
    + apply (StronglySorted_fmap _ (fun a b => amount a < amount b)); [done |].
      eapply StronglySorted_sublist; [apply Array_slice_sublist |].
      apply StronglySorted_strict; [apply sort_by_amount_asc_sorted |].
      by rewrite Hperm.
    + intros -> Hlimit. rewrite <- Hperm.
      replace ((1 - 1) * limit) with 0 by lia.
      rewrite Array_slice_nonneg by lia.
      change (Z.to_nat 0) with 0%nat. rewrite drop_0.
      rewrite take_ge; [done |]. rewrite Hperm. lia.
  - intros sortBy sortOrder f Hnot. rewrite !paginatedQuery_unfold.
    do 3 f_equal. apply Array_sort_ext. intros a b.
    unfold PaymentRepository.comparator.
    by rewrite !(getSortValue_unknown _ sortBy Hnot).
Qed.

Lemma findPaginated_order_witness :
  fst (PaymentRepository.findPaginated 1 10 "amount" asc (world_of three_payments))
  = Ok {| data := [sample_payment "b" PENDING 100;
                   sample_payment "c" PENDING 200;
                   sample_payment "a" PENDING 300];
          total := 3 |}
  /\ (exists r,
        PaymentRepository.findPaginated 1 10 "amount" asc (world_of three_payments)
        = (Ok r, world_of three_payments)
        /\ StronglySorted Z.lt (amount <$> data r))
  /\ paginatedQuery NoFilter 1 10 "price" desc (world_of three_payments)
     = paginatedQuery NoFilter 1 10 "createdAt" desc (world_of three_payments).
Proof.
  split; [by vm_compute |]. split.
  - destruct (proj1 (findPaginated_order (world_of three_payments) 1 10))
      as (r & Hrun & Hsorted & _).
    + apply (bool_decide_unpack _). by vm_compute.
    + exists r. by split.
  - apply (proj2 (findPaginated_order (world_of three_payments) 1 10)).
    apply (bool_decide_unpack _). by vm_compute.
Defined.

(** ** C7: the failure rate of the simulator *)

(** C7, as stated, fails in binary64 arithmetic for a credit-card payment of
    at most 10000: the rate is the sum [0.1 + 0.05], which is
    [0.15000000000000002], the float next above [0.15]. *)
Lemma failure_rate_small_credit_card_not_0_15 :
  let p := sample_payment "p1" PENDING 1000 in
  (amount p <=? 10000) = true
  /\ paymentMethod p = CREDIT_CARD
  /\ PaymentService.getFailureRate p = 0x1.3333333333334p-3%float
  /\ PrimFloat.ltb 0.15%float (PaymentService.getFailureRate p) = true
  /\ ~ (forall p : PaymentEntity,
          PaymentService.getFailureRate p
          = (match (10000 <? amount p)%Z,
                   String.eqb (paymentMethod p) CREDIT_CARD with
             | false, false => 0.10
             | false, true => 0.15
             | true, false => 0.20
             | true, true => 0.25
             end)%float).
Proof.
  cbv zeta. repeat split; try reflexivity.
  intros H. specialize (H (sample_payment "p1" PENDING 1000)).
  apply (f_equal (fun x => PrimFloat.eqb x 0.15%float)) in H.
  vm_compute in H. discriminate H.
Qed.

(** C7, amended. The failure rate is
    [min(0.10 + (0.10 if amount > 10000 else 0) + (0.05 if credit_card else 0), 0.50)]
    evaluated in binary64 arithmetic; it depends only on whether the amount
    exceeds 10000 and whether the method is credit_card, and it is [0.1],
    [0.1 + 0.05] (which is 0.15000000000000002), [0.2] or [0.25]; it never
    exceeds [0.5]. *)
Theorem getFailureRate_value (p : PaymentEntity) :
  let big := 10000 <? amount p in
  let card := String.eqb (paymentMethod p) CREDIT_CARD in
  PaymentService.getFailureRate p
  = PaymentService.Math_min
      (0.1 + (if big then 0.1 else 0) + (if card then 0.05 else 0))%float
      0.5%float
  /\ PaymentService.getFailureRate p
     = (match big, card with
        | false, false => 0.1
        | false, true => 0.1 + 0.05
        | true, false => 0.2
        | true, true => 0.25
        end)%float
  /\ PrimFloat.leb (PaymentService.getFailureRate p) 0.5%float = true.
Proof.
  intros big card. unfold PaymentService.getFailureRate. fold big card.
  destruct big, card; repeat split; reflexivity.
Qed.

(** ** C8: the file mirror restores the store *)

Lemma new_revive paymentData w :
  PaymentEntity.new (PaymentRepository.revive paymentData) w = (Ok (thaw paymentData), w).
Proof. reflexivity. Qed.


Lemma load_all_run paymentsData : forall w,
  PaymentRepository.load_all paymentsData w
  = (Ok tt, set_payments (fun m => foldl load_step m paymentsData) w).
Proof.
  induction paymentsData as [| d ds IH]; intros w.
  - by destruct w.
  - cbn [PaymentRepository.load_all]. unfold bind at 1.
    rewrite new_revive. unfold bind at 1. rewrite IH. reflexivity.
Qed.





Example stringify_settled_payment :
  PaymentRepository.stringify (PaymentEntity.toJSON settled_payment)
  = {| d_id := "p1"; d_amount := 2500; d_currency := "EUR";
       d_paymentMethod := DEBIT_CARD; d_status := FAILED; d_customerId := "c7";
       d_description := Some "order 12";
       d_metadata := Some {[ "orderId" := JStr "o-12" ]};
       d_createdAt := "2023-11-14T22:13:20.000Z";
       d_updatedAt := "2023-11-14T22:13:24.321Z";
       d_processedAt := Some "2023-11-14T22:13:24.321Z";
       d_failureReason := Some "Card declined" |}.
Proof. by vm_compute. Qed.


(** ** C9: which failure reason an update stores *)

Lemma Map_get_after_update pid k p' (m : list (string * PaymentEntity)) :
  PaymentRepository.Map_get pid m = Some p' ->
  PaymentRepository.Map_get pid (PaymentRepository.Map_set k p' m) = Some p'.
Proof.
  intros H. destruct (decide (pid = k)) as [-> | Hne].
  - apply Map_get_set_eq.
  - by rewrite Map_get_set_ne.
Qed.

(** C9, as stated, fails for the empty string: [updateStatus] tests the
    reason for truthiness, so a patch that carries [failureReason: ""] with
    an allowed status stores nothing. *)
Lemma empty_failureReason_not_stored :
  let w := world_of [("p1", sample_payment "p1" PENDING 1000)] in
  let dto := {| u_status := Some PROCESSING; u_metadata := None;
                u_failureReason := Some "" |} in
  PaymentService.isValidStatusTransition PENDING PROCESSING = true
  /\ (failureReason <$>
        match fst (PaymentService.updatePayment "p1" dto w) with
        | Ok p' => Some p'
        | Throw _ => None
        end) = Some None
  /\ ~ (forall (w : World) (paymentId : string) (p : PaymentEntity)
          (dto : UpdatePaymentDto) (s : PaymentStatus) (reason : string),
          PaymentRepository.Map_get paymentId (payments w) = Some p ->
          u_status dto = Some s -> s <> FAILED ->
          PaymentService.isValidStatusTransition (status p) s = true ->
          u_failureReason dto = Some reason ->
          exists p' w',
            PaymentService.updatePayment paymentId dto w = (Ok p', w')
            /\ failureReason p' = Some reason).
Proof.
  split; [by vm_compute |]. split; [by vm_compute |]. intros H.
  destruct (H (world_of [("p1", sample_payment "p1" PENDING 1000)]) "p1"
              (sample_payment "p1" PENDING 1000)
              {| u_status := Some PROCESSING; u_metadata := None;
                 u_failureReason := Some "" |}
              PROCESSING "" eq_refl eq_refl ltac:(discriminate) eq_refl eq_refl)
    as (p' & w' & Hrun & Hreason).
  vm_compute in Hrun. injection Hrun as <- _. discriminate Hreason.
Qed.

(** C9, amended. A valid [updatePayment] whose patch carries a status, FAILED
    or not, stores the failure reason of the patch when that reason is a
    non-empty string; when the patch has no reason, or the empty one, the
    reason stored before stays in place (so a transition to FAILED without a
    reason keeps the old one). The entity returned is the stored one and has
    the new status. *)
Theorem updatePayment_failureReason
    (w : World) (paymentId : string) (p : PaymentEntity)
    (dto : UpdatePaymentDto) (s : PaymentStatus) :
  PaymentRepository.Map_get paymentId (payments w) = Some p ->
  u_status dto = Some s ->
  PaymentService.isValidStatusTransition (status p) s = true ->
  exists p' w',
    PaymentService.updatePayment paymentId dto w = (Ok p', w')
    /\ PaymentRepository.Map_get paymentId (payments w') = Some p'
    /\ status p' = s
    /\ failureReason p' =
         (if truthy_string (u_failureReason dto)
          then u_failureReason dto else failureReason p).
Proof.
  intros Hget Hs Hv. run. rewrite Hget, Hs. cbn. rewrite Hv. cbn.
  destruct (u_metadata dto) as [patch |], s; cbn;
    eexists _, _; (split; [reflexivity |]); cbn;
    (split; [| split; reflexivity]);
    apply Map_get_after_update; cbn;
    repeat (eapply Map_get_replace); exact Hget.
Qed.

Lemma updatePayment_failureReason_witness :
  let w := world_of [("p1", sample_payment "p1" PENDING 1000)] in
  let dto := {| u_status := Some PROCESSING; u_metadata := None;
                u_failureReason := Some "manual review" |} in
  exists p' w',
    PaymentService.updatePayment "p1" dto w = (Ok p', w')
    /\ PaymentRepository.Map_get "p1" (payments w') = Some p'
    /\ status p' = PROCESSING
    /\ failureReason p' = Some "manual review".
Proof.
  intros w dto.
  apply (updatePayment_failureReason w "p1" (sample_payment "p1" PENDING 1000)
           dto PROCESSING); reflexivity.
Defined.

(** ** C10: an update without status and metadata *)

(** C10. For a stored payment of a well-formed store and a patch with
    neither a status nor metadata (a failure reason alone is ignored),
    [updatePayment] succeeds and returns the stored entity as it was; the
    store, its order and the clock are untouched ([updatedAt] is not
    refreshed), and the one effect is that the file mirror is written again
    from the unchanged collection. *)
Theorem updatePayment_empty_patch
    (w : World) (paymentId : string) (p : PaymentEntity) (dto : UpdatePaymentDto) :
  store_wf (payments w) ->
  PaymentRepository.Map_get paymentId (payments w) = Some p ->
  u_status dto = None ->
  u_metadata dto = None ->
  PaymentService.updatePayment paymentId dto w
  = (Ok p,
     set_file (Some ((fun payment =>
                        PaymentRepository.stringify (PaymentEntity.toJSON payment))
                     <$> PaymentRepository.values w)) w).
Proof.
  intros Hwf Hget Hs Hm. run. rewrite Hget, Hs, Hm. cbn.
  unfold set_file, set_payments, PaymentRepository.values. cbn.
  rewrite (Map_get_key_id _ _ _ Hwf Hget).
  by rewrite (Map_set_same _ _ _ Hget).
Qed.

Lemma store_wf_singleton key st amt :
  store_wf [(key, sample_payment key st amt)].
Proof.
  split; cbn.
  - by repeat constructor.
  - apply NoDup_singleton.
Qed.

Lemma updatePayment_empty_patch_witness :
  let p := sample_payment "p1" COMPLETED 1000 in
  let w := world_of [("p1", p)] in
  let dto := {| u_status := None; u_metadata := None;
                u_failureReason := Some "ignored" |} in
  exists w',
    PaymentService.updatePayment "p1" dto w = (Ok p, w')
    /\ payments w' = payments w
    /\ clock_reads w' = clock_reads w
    /\ file w' = Some [PaymentRepository.stringify p].
Proof.
  intros p w dto. eexists. split.
  - apply (updatePayment_empty_patch w "p1" p dto).
    + apply store_wf_singleton.
    + reflexivity.
    + reflexivity.
    + reflexivity.
  - repeat split.
Defined.

(** ** The store stays well formed *)

Lemma Map_set_keys k v (m : list (string * PaymentEntity)) k' :
  k' ∈ (PaymentRepository.Map_set k v m).*1 <-> k' = k \/ k' ∈ m.*1.
Proof.
  induction m as [| [k2 v2] m IH]; cbn.
  - rewrite list_elem_of_singleton, elem_of_nil. tauto.
  - destruct (String.eqb_spec k k2) as [-> | Hne]; cbn.
    + rewrite !elem_of_cons. tauto.
    + rewrite !elem_of_cons, IH. tauto.
Qed.

Lemma store_wf_Map_set (m : list (string * PaymentEntity)) (p : PaymentEntity) :
  store_wf m -> store_wf (PaymentRepository.Map_set (id p) p m).
Proof.
  intros [Hid Hnd]. induction m as [| [k v] m IH]; cbn.
  - split; [by repeat constructor | apply NoDup_singleton].
  - apply Forall_cons in Hid as [Hk Hid]. cbn in Hnd, Hk.
    apply NoDup_cons in Hnd as [Hnotin Hnd].
    destruct (String.eqb_spec (id p) k) as [<- | Hne].
    + split; [by constructor | by apply NoDup_cons].
    + destruct (IH Hid Hnd) as [Hid' Hnd'].
      split; [by constructor |]. cbn. apply NoDup_cons. split; [| done].
      rewrite Map_set_keys. intros [-> | Hin]; done.
Qed.

Lemma store_wf_replace (m : list (string * PaymentEntity)) ref (p : PaymentEntity) :
  id p = ref -> store_wf m ->
  store_wf ((fun kv => if String.eqb (fst kv) ref then (fst kv, p) else kv) <$> m).
Proof.
  intros Hp [Hid Hnd]. split.
  - apply Forall_fmap. eapply Forall_impl; [exact Hid |].
    intros [k v] Hk. cbn in *.
    destruct (String.eqb_spec k ref) as [-> | _]; cbn; done.
  - rewrite <- list_fmap_compose.
    erewrite list_fmap_ext; [exact Hnd |].
    intros i [k v] _. cbn. by destruct (String.eqb k ref).
Qed.

(** What [Map.set(payment.id, payment)] maintains: [createPayment] and
    [updatePayment] keep a well-formed store well formed, and the store that
    [loadFromFile] builds in a fresh repository is well formed. *)
Lemma service_keeps_store_wf (w : World) :
  store_wf (payments w) ->
  (forall dto, store_wf (payments (snd (PaymentService.createPayment dto w))))
  /\ (forall paymentId dto,
        store_wf (payments (snd (PaymentService.updatePayment paymentId dto w))))
  /\ store_wf (payments (snd (PaymentRepository.loadFromFile (restart w)))).
Proof.
  intros Hwf. split; [| split].
  - intros dto. run.
    apply (store_wf_Map_set _ (mkPayment _ _ _ _ _ _ _ _ _ _ _ _) Hwf).
  - intros paymentId dto. run.
    destruct (PaymentRepository.Map_get paymentId (payments w)) as [p |] eqn:Hget;
      cbn; [| done].
    pose proof (Map_get_key_id _ _ _ Hwf Hget) as Hkey.
    destruct (u_status dto) as [s |]; cbn.
    + destruct (PaymentService.isValidStatusTransition (status p) s); cbn; [| done].
      destruct s, (u_metadata dto); cbn;
        repeat first
          [ apply (store_wf_Map_set _ (mkPayment _ _ _ _ _ _ _ _ _ _ _ _))
          | apply store_wf_replace; [exact Hkey |] ];
        exact Hwf.
    + destruct (u_metadata dto); cbn;
        repeat first
          [ apply (store_wf_Map_set _ (mkPayment _ _ _ _ _ _ _ _ _ _ _ _))
          | apply store_wf_replace; [exact Hkey |]
          | apply store_wf_Map_set ];
        exact Hwf.
  - unfold PaymentRepository.loadFromFile. cbn [restart file].
    destruct (file w) as [ds |]; [| split; [constructor | apply NoDup_nil_2]].
    rewrite load_all_run. cbn [snd payments set_payments restart].
    generalize (@nil (string * PaymentEntity)) (conj (Forall_nil_2 _) (@NoDup_nil_2 string)
      : store_wf []).
    induction ds as [| d ds IH]; intros m Hm; [exact Hm |].
    cbn [foldl]. apply IH. apply (store_wf_Map_set m (thaw d) Hm).
Qed.

(** ** The repository as a map *)

Lemma Map_set_fresh k v (m : list (string * PaymentEntity)) :
  PaymentRepository.Map_get k m = None ->
  PaymentRepository.Map_set k v m = (m ++ [(k, v)])%list.
Proof.
  induction m as [| [k' v'] m IH]; cbn; [done |].
  destruct (String.eqb k k'); [discriminate |].
  intros H. by rewrite IH.
Qed.

Lemma Map_set_replace k v (m : list (string * PaymentEntity)) :
  is_Some (PaymentRepository.Map_get k m) ->
  (PaymentRepository.Map_set k v m).*1 = m.*1
  /\ length (PaymentRepository.Map_set k v m) = length m.
Proof.
  induction m as [| [k' v'] m IH]; cbn.
  - by intros [? ?].
  - destruct (String.eqb_spec k k') as [-> | Hne]; cbn; [done |].
    intros H. destruct (IH H) as [-> ->]. done.
Qed.


(** X1. [create] followed by [findById]: the payment just created is found
    under its id, and every other id answers as before. *)
Theorem create_findById (payment : PaymentEntity) (w : World) :
  exists w',
    PaymentRepository.create payment w = (Ok payment, w')
    /\ PaymentRepository.findById (id payment) w' = (Ok (Some payment), w')
    /\ (forall k, k <> id payment ->
        fst (PaymentRepository.findById k w') = fst (PaymentRepository.findById k w)).
Proof.
  eexists. split; [reflexivity |].
  unfold PaymentRepository.findById. cbn. split.
  - by rewrite Map_get_set_eq.
  - intros k Hne. by rewrite Map_get_set_ne.
Qed.


Lemma filter_status_partition (l : list PaymentEntity) :
  mjoin ((fun s => filter (fun payment => status payment = s) l) <$> all_statuses) ≡ₚ l.
Proof.
  induction l as [| x l IH]; [done |].
  cbn in *. rewrite !app_nil_r in *.
  destruct (status x) eqn:E;
    repeat first [ rewrite filter_cons_True by done
                 | rewrite filter_cons_False by done ];
    (etransitivity; [| apply Permutation_skip, IH]); clear; solve_Permutation.
Qed.

(** X3. The six statuses partition the store: the results of [findByStatus]
    for the six statuses, put together, are the payments of [findAll] (each
    exactly once), so their lengths add up to [count]. *)
Theorem findByStatus_partition (w : World) :
  exists (by_status : PaymentStatus -> list PaymentEntity) (all : list PaymentEntity),
    (forall s, PaymentRepository.findByStatus s w = (Ok (by_status s), w))
    /\ PaymentRepository.findAll w = (Ok all, w)
    /\ mjoin (by_status <$> all_statuses) ≡ₚ all
    /\ PaymentRepository.count w
       = (Ok (Z.of_nat (sum_list (length ∘ by_status <$> all_statuses))), w).
Proof.
  exists (fun s => filter (fun payment => status payment = s) (PaymentRepository.values w)),
         (PaymentRepository.values w).
  split; [done |]. split; [done |].
  pose proof (filter_status_partition (PaymentRepository.values w)) as Hperm.
  split; [exact Hperm |].
  unfold PaymentRepository.count. do 3 f_equal.
  apply Permutation_length in Hperm.
  unfold PaymentRepository.values in *. rewrite length_fmap in Hperm.
  rewrite <- Hperm. cbn. rewrite !length_app. cbn. lia.
Qed.

(** ** The whole store survives a restart *)




(** ** The entry of a payment that a method call changes *)

Lemma replace_entry_keys ref p (m : list (string * PaymentEntity)) :
  (replace_entry ref p m).*1 = m.*1.
Proof.
  unfold replace_entry. rewrite <- list_fmap_compose.
  apply list_fmap_ext. intros i [k v] _. cbn. by destruct (String.eqb k ref).
Qed.

Lemma replace_entry_twice ref a b (m : list (string * PaymentEntity)) :
  replace_entry ref a (replace_entry ref b m) = replace_entry ref a m.
Proof.
  unfold replace_entry. rewrite <- list_fmap_compose.
  apply list_fmap_ext. intros i [k v] _. cbn.
  destruct (String.eqb k ref) eqn:E; cbn; by rewrite E.
Qed.

Lemma Map_get_replace_entry_ne k ref p (m : list (string * PaymentEntity)) :
  k <> ref ->
  PaymentRepository.Map_get k (replace_entry ref p m) = PaymentRepository.Map_get k m.
Proof.
  intros Hne. unfold replace_entry.
  induction m as [| [k' v] m IH]; cbn; [done |].
  destruct (String.eqb_spec k' ref) as [-> | Hne']; cbn.
  - apply String.eqb_neq in Hne. by rewrite Hne.
  - by rewrite IH.
Qed.

Lemma Map_get_replace_entry_eq ref p p' (m : list (string * PaymentEntity)) :
  PaymentRepository.Map_get ref m = Some p ->
  PaymentRepository.Map_get ref (replace_entry ref p' m) = Some p'.
Proof. apply Map_get_replace. Qed.

Lemma Map_set_replace_entry k p (m : list (string * PaymentEntity)) :
  is_Some (PaymentRepository.Map_get k m) -> NoDup m.*1 ->
  PaymentRepository.Map_set k p m = replace_entry k p m.
Proof.
  unfold replace_entry. induction m as [| [k' v] m IH]; cbn.
  - by intros [? ?].
  - intros Hsome Hnd. apply NoDup_cons in Hnd as [Hnotin Hnd].
    rewrite (String.eqb_sym k' k).
    destruct (String.eqb_spec k k') as [-> | Hne]; cbn.
    + f_equal. clear IH Hsome Hnd.
      induction m as [| [k2 v2] m IH]; cbn; [done |].
      cbn in Hnotin. apply not_elem_of_cons in Hnotin as [Hne Hnotin].
      destruct (String.eqb_spec k2 k') as [-> | _]; [done |].
      by rewrite <- IH.
    + f_equal. by apply IH.
Qed.

Lemma replace_entry_same k p (m : list (string * PaymentEntity)) :
  PaymentRepository.Map_get k m = Some p -> NoDup m.*1 ->
  replace_entry k p m = m.
Proof.
  intros Hget Hnd. rewrite <- Map_set_replace_entry by done.
  by apply Map_set_same.
Qed.

Lemma foldr_replace_entry k q qs (m : list (string * PaymentEntity)) :
  foldr (replace_entry k) m (q :: qs) = replace_entry k q m.
Proof.
  revert q. induction qs as [| q' qs IH]; intros q; [done |].
  cbn [foldr] in *. by rewrite IH, replace_entry_twice.
Qed.

(** The store after the method calls on the entity under [k] (they left the
    entities [qs], the last one first) and the final [Map.set] of [update]. *)
Lemma Map_set_after_mutate k (p p' : PaymentEntity) qs
    (m m' : list (string * PaymentEntity)) :
  store_wf m -> PaymentRepository.Map_get k m = Some p -> id p' = k ->
  m' = foldr (replace_entry k) m qs ->
  PaymentRepository.Map_set (id p') p' m' = replace_entry k p' m.
Proof.
  intros [Hid Hnd] Hget -> ->. destruct qs as [| q qs].
  - by apply Map_set_replace_entry.
  - rewrite foldr_replace_entry, Map_set_replace_entry.
    + apply replace_entry_twice.
    + rewrite (Map_get_replace_entry_eq _ _ _ _ Hget). by eexists.
    + by rewrite replace_entry_keys.
Qed.

Lemma file_in_sync_saved (m : list (string * PaymentEntity)) w :
  file_in_sync
    (set_file (Some ((fun payment =>
                        PaymentRepository.stringify (PaymentEntity.toJSON payment))
                     <$> PaymentRepository.values (set_payments (fun _ => m) w)))
       (set_payments (fun _ => m) w)).
Proof. reflexivity. Qed.

Lemma updatePayment_effect (w : World) (paymentId : string) (p : PaymentEntity)
    (dto : UpdatePaymentDto) :
  store_wf (payments w) ->
  PaymentRepository.Map_get paymentId (payments w) = Some p ->
  (forall s, u_status dto = Some s ->
     PaymentService.isValidStatusTransition (status p) s = true) ->
  exists p' w',
    PaymentService.updatePayment paymentId dto w = (Ok p', w')
    /\ touched paymentId p p' w w'
    /\ uuid_draws w' = uuid_draws w
    /\ status p' = default (status p) (u_status dto)
    /\ metadata p' = match u_metadata dto with
                     | Some patch => Some (patch ∪ default ∅ (metadata p))
                     | None => metadata p
                     end
    /\ processedAt p' = match u_status dto with
                        | Some s => if stamps_processedAt s
                                    then Some (clock_source w (S (clock_reads w)))
                                    else processedAt p
                        | None => processedAt p
                        end
    /\ failureReason p' = match u_status dto with
                          | Some _ => if truthy_string (u_failureReason dto)
                                      then u_failureReason dto else failureReason p
                          | None => failureReason p
                          end
    /\ (updatedAt p' = updatedAt p /\ clock_reads w' = clock_reads w
        \/ exists n, (clock_reads w <= n < clock_reads w')%nat
                     /\ updatedAt p' = clock_source w n).
Proof.
  intros Hwf Hget Hvalid.
  pose proof (Map_get_key_id _ _ _ Hwf Hget) as Hkey.
  run. rewrite Hget. cbn.
  destruct (u_status dto) as [s |] eqn:Hs; cbn.
  - rewrite (Hvalid s eq_refl). cbn.
    destruct (u_metadata dto) as [patch |], s; cbn;
      (eexists _, _; split; [reflexivity |]); cbn;
      (split; [touch Map_set_after_mutate Hwf Hget Hkey |]);
      repeat (split; [reflexivity |]);
      right; eexists; (split; [| reflexivity]); lia.
  - destruct (u_metadata dto) as [patch |]; cbn;
      (eexists _, _; split; [reflexivity |]); cbn;
      (split; [touch Map_set_after_mutate Hwf Hget Hkey |]);
      repeat (split; [reflexivity |]).
    + right; eexists; (split; [| reflexivity]); lia.
    + by left.
Qed.

Lemma createPayment_effect (dto : CreatePaymentDto) (w : World) :
  exists p w',
    PaymentService.createPayment dto w = (Ok p, w')
    /\ payments w' = PaymentRepository.Map_set (id p) p (payments w)
    /\ file_in_sync w'
    /\ p = {| id := uuid_source w (uuid_draws w);
              amount := c_amount dto; currency := c_currency dto;
              paymentMethod := c_paymentMethod dto; status := PENDING;
              customerId := c_customerId dto; description := c_description dto;
              metadata := c_metadata dto;
              createdAt := clock_source w (clock_reads w);
              updatedAt := clock_source w (S (clock_reads w));
              processedAt := None; failureReason := None |}
    /\ clock_source w' = clock_source w
    /\ uuid_source w' = uuid_source w
    /\ clock_reads w' = S (S (clock_reads w))
    /\ uuid_draws w' = S (uuid_draws w)
    /\ scheduled w' = (scheduled w ++ [id p])%list.
Proof. eexists _, _. split; [reflexivity |]. by repeat split. Qed.

Lemma start_effect (w : World) (paymentId : string) (p : PaymentEntity) :
  store_wf (payments w) ->
  PaymentRepository.Map_get paymentId (payments w) = Some p ->
  exists p' w',
    PaymentService.processPaymentAsync_start paymentId w = (Ok true, w')
    /\ touched paymentId p p' w w'
    /\ status p' = PROCESSING
    /\ metadata p' = metadata p
    /\ processedAt p' = processedAt p
    /\ failureReason p' = failureReason p
    /\ updatedAt p' = clock_source w (clock_reads w)
    /\ clock_reads w' = S (clock_reads w)
    /\ uuid_draws w' = uuid_draws w.
Proof.
  intros Hwf Hget.
  pose proof (Map_get_key_id _ _ _ Hwf Hget) as Hkey.
  run_simulator. rewrite Hget. cbn.
  eexists _, _. split; [reflexivity |]. cbn.
  split; [touch Map_set_after_mutate Hwf Hget Hkey |]. by repeat split.
Qed.

Lemma start_missing (w : World) (paymentId : string) :
  PaymentRepository.Map_get paymentId (payments w) = None ->
  PaymentService.processPaymentAsync_start paymentId w = (Ok false, w).
Proof. intros Hget. run_simulator. by rewrite Hget. Qed.

Lemma finish_missing (w : World) (paymentId : string) r1 r2 :
  PaymentRepository.Map_get paymentId (payments w) = None ->
  PaymentService.processPaymentAsync_finish paymentId r1 r2 w = (Ok tt, w).
Proof. intros Hget. run_simulator. by rewrite Hget. Qed.

Lemma approved_metadata (m : gmap string json) (a b : json) :
  PaymentEntity.spread (Some m)
    (<["processorResponse" := a]> (<["transactionId" := b]> m))
  = <["processorResponse" := a]> (<["transactionId" := b]> m).
Proof.
  unfold PaymentEntity.spread. cbn. apply map_eq. intros i.
  rewrite lookup_union.
  destruct (decide (i = "processorResponse")) as [-> | H1].
  { rewrite lookup_insert_eq. by destruct (m !! "processorResponse"). }
  rewrite lookup_insert_ne by done.
  destruct (decide (i = "transactionId")) as [-> | H2].
  { rewrite lookup_insert_eq. by destruct (m !! "transactionId"). }
  rewrite lookup_insert_ne by done. by destruct (m !! i).
Qed.

Lemma finish_effect (w : World) (paymentId : string) (p : PaymentEntity) (r1 r2 : float) :
  store_wf (payments w) ->
  PaymentRepository.Map_get paymentId (payments w) = Some p ->
  exists p' w',
    PaymentService.processPaymentAsync_finish paymentId r1 r2 w = (Ok tt, w')
    /\ touched paymentId p p' w w'
    /\ processedAt p' = Some (clock_source w (S (clock_reads w)))
    /\ if PrimFloat.ltb r1 (PaymentService.getFailureRate p)
       then
         let reason :=
           PaymentService.Array_at PaymentService.errorReasons
             (PaymentService.Math_floor (r2 * 6)%float) in
         status p' = FAILED
         /\ failureReason p' = (if truthy_string reason then reason else failureReason p)
         /\ metadata p' = metadata p
         /\ updatedAt p' = clock_source w (clock_reads w)
         /\ clock_reads w' = S (S (clock_reads w))
         /\ uuid_draws w' = uuid_draws w
       else
         status p' = COMPLETED
         /\ failureReason p' = failureReason p
         /\ metadata p' =
              Some (<["processorResponse" := JStr "Payment approved"]>
                      (<["transactionId" :=
                           JStr (String.append "txn_"
                                   (PaymentService.String_replace "-" ""
                                      (uuid_source w (uuid_draws w))))]>
                         (default ∅ (metadata p))))
         /\ updatedAt p' = clock_source w (S (S (clock_reads w)))
         /\ clock_reads w' = S (S (S (clock_reads w)))
         /\ uuid_draws w' = S (uuid_draws w).
Proof.
  intros Hwf Hget.
  pose proof (Map_get_key_id _ _ _ Hwf Hget) as Hkey.
  run_simulator. rewrite Hget. cbn.
  destruct (PrimFloat.ltb r1 (PaymentService.getFailureRate p)); cbn.
  - eexists _, _. split; [reflexivity |]. cbn.
    split; [touch Map_set_after_mutate Hwf Hget Hkey |]. by repeat split.
  - eexists _, _. split; [reflexivity |]. cbn.
    split; [touch Map_set_after_mutate Hwf Hget Hkey |]. split; [reflexivity |].
    split; [reflexivity |]. split; [reflexivity |].
    split; [| by repeat split].
    destruct (metadata p) as [m |]; cbn; f_equal.
    apply approved_metadata.
Qed.

(** ** What a request does to the store *)

Lemma updatePayment_rejected (w : World) (paymentId : string) (dto : UpdatePaymentDto) :
  (PaymentRepository.Map_get paymentId (payments w) = None ->
   PaymentService.updatePayment paymentId dto w
   = (Throw (PaymentNotFoundException paymentId), w))
  /\ (forall p s,
        PaymentRepository.Map_get paymentId (payments w) = Some p ->
        u_status dto = Some s ->
        PaymentService.isValidStatusTransition (status p) s = false ->
        PaymentService.updatePayment paymentId dto w
        = (Throw (InvalidPaymentStatusException (status p) s), w)).
Proof.
  split.
  - intros Hget. run. by rewrite Hget.
  - intros p s Hget Hs Hv. run. rewrite Hget. cbn. rewrite Hs. cbn. by rewrite Hv.
Qed.

(** A request to update either throws and leaves the world as it is, or
    it finds the payment, the status change (when there is one) is in the
    table, and the payment is touched as the patch says. *)
Lemma updatePayment_cases (w : World) (paymentId : string) (dto : UpdatePaymentDto) :
  store_wf (payments w) ->
  (exists e, PaymentService.updatePayment paymentId dto w = (Throw e, w))
  \/ (exists p p' w',
        PaymentRepository.Map_get paymentId (payments w) = Some p
        /\ (forall s, u_status dto = Some s -> table_step (status p) s)
        /\ PaymentService.updatePayment paymentId dto w = (Ok p', w')
        /\ touched paymentId p p' w w'
        /\ uuid_draws w' = uuid_draws w
        /\ status p' = default (status p) (u_status dto)
        /\ metadata p' = match u_metadata dto with
                         | Some patch => Some (patch ∪ default ∅ (metadata p))
                         | None => metadata p
                         end
        /\ processedAt p' = match u_status dto with
                            | Some s => if stamps_processedAt s
                                        then Some (clock_source w (S (clock_reads w)))
                                        else processedAt p
                            | None => processedAt p
                            end
        /\ failureReason p' = match u_status dto with
                              | Some _ => if truthy_string (u_failureReason dto)
                                          then u_failureReason dto else failureReason p
                              | None => failureReason p
                              end
        /\ (updatedAt p' = updatedAt p /\ clock_reads w' = clock_reads w
            \/ exists n, (clock_reads w <= n < clock_reads w')%nat
                         /\ updatedAt p' = clock_source w n)).
Proof.
  intros Hwf.
  destruct (updatePayment_rejected w paymentId dto) as [Hnone Hinvalid].
  destruct (PaymentRepository.Map_get paymentId (payments w)) as [p |] eqn:Hget.
  - destruct (u_status dto) as [s |] eqn:Hs.
    + destruct (PaymentService.isValidStatusTransition (status p) s) eqn:Hv.
      * right.
        destruct (updatePayment_effect w paymentId p dto Hwf Hget) as (p' & w' & H).
        { intros s' Hs'. rewrite Hs in Hs'. by injection Hs' as <-. }
        exists p, p', w'. split; [done |]. split.
        { intros s' [= <-]. by apply isValidStatusTransition_table. }
        rewrite Hs in H. exact H.
      * left. eexists. by eapply Hinvalid.
    + right.
      destruct (updatePayment_effect w paymentId p dto Hwf Hget) as (p' & w' & H).
      { intros s' Hs'. by rewrite Hs in Hs'. }
      exists p, p', w'. split; [done |]. split; [by intros s' [=] |].
      rewrite Hs in H. exact H.
  - left. eexists. by apply Hnone.
Qed.

(** X5. An id that is not stored: [getPaymentById] and [updatePayment] (of
    the service and of the controller) throw [PaymentNotFoundException]
    with that id and change nothing, whatever the patch is; the test for
    the payment comes before the test of the status change. *)
Theorem unknown_id_rejected (w : World) (paymentId : string) (dto : UpdatePaymentDto) :
  PaymentRepository.Map_get paymentId (payments w) = None ->
  PaymentService.getPaymentById paymentId w
  = (Throw (PaymentNotFoundException paymentId), w)
  /\ PaymentService.updatePayment paymentId dto w
     = (Throw (PaymentNotFoundException paymentId), w)
  /\ PaymentController.getPaymentById paymentId w
     = (Throw (PaymentNotFoundException paymentId), w)
  /\ PaymentController.updatePayment paymentId dto w
     = (Throw (PaymentNotFoundException paymentId), w).
Proof.
  intros Hget.
  unfold PaymentController.getPaymentById, PaymentController.updatePayment.
  run. by rewrite Hget.
Qed.

Lemma unknown_id_rejected_witness :
  let dto := {| u_status := Some REFUNDED; u_metadata := Some ∅;
                u_failureReason := None |} in
  PaymentService.updatePayment "zz" dto (world_of three_payments)
  = (Throw (PaymentNotFoundException "zz"), world_of three_payments).
Proof.
  intros dto.
  apply (unknown_id_rejected (world_of three_payments) "zz" dto). reflexivity.
Defined.

(** X6. The frame of a successful [updatePayment]: the payment was stored
    under the id; its id, amount, currency, payment method, customer,
    description and [createdAt] are the old ones; the entity returned is the
    one now stored; every other payment is untouched and the order of the
    [Map] is kept; no uuid is drawn and nothing is scheduled; the file
    mirror holds the new store. *)
Theorem updatePayment_frame (w w' : World) (paymentId : string)
    (dto : UpdatePaymentDto) (p' : PaymentEntity) :
  store_wf (payments w) ->
  PaymentService.updatePayment paymentId dto w = (Ok p', w') ->
  exists p,
    PaymentRepository.Map_get paymentId (payments w) = Some p
    /\ same_identity p p'
    /\ PaymentRepository.Map_get paymentId (payments w') = Some p'
    /\ (forall k, k <> paymentId ->
        PaymentRepository.Map_get k (payments w')
        = PaymentRepository.Map_get k (payments w))
    /\ (payments w').*1 = (payments w).*1
    /\ file_in_sync w'
    /\ scheduled w' = scheduled w
    /\ uuid_draws w' = uuid_draws w.
Proof.
  intros Hwf Hrun.
  destruct (updatePayment_cases w paymentId dto Hwf)
    as [[e He] | (p & q & w1 & Hget & _ & Hrun' & Ht & Hu & _)].
  { rewrite He in Hrun. discriminate Hrun. }
  rewrite Hrun' in Hrun. injection Hrun as -> ->.
  destruct Ht as (Hp & Hf & Hsame & _ & _ & Hsched & _ & _).
  exists p. split; [done |]. split; [done |].
  rewrite Hp. split; [by eapply Map_get_replace_entry_eq |].
  split; [intros k Hk; by apply Map_get_replace_entry_ne |].
  split; [apply replace_entry_keys |]. done.
Qed.

Lemma store_wf_three_payments : store_wf three_payments.
Proof.
  split.
  - by repeat constructor.
  - apply (bool_decide_unpack _). by vm_compute.
Qed.

Lemma updatePayment_frame_witness :
  let dto := {| u_status := Some CANCELLED; u_metadata := None;
                u_failureReason := None |} in
  let w' := snd (PaymentService.updatePayment "b" dto (world_of three_payments)) in
  PaymentRepository.Map_get "a" (payments w') = Some (sample_payment "a" PENDING 300)
  /\ (payments w').*1 = ["a"; "b"; "c"].
Proof.
  intros dto w'.
  destruct (updatePayment_frame (world_of three_payments) w' "b" dto _
              store_wf_three_payments eq_refl)
    as (p & _ & _ & _ & Hother & Hkeys & _).
  split.
  - by rewrite Hother.
  - exact Hkeys.
Defined.

(** X7. A patch with metadata and no status: the metadata is merged, the keys
    of the patch winning, and [updatedAt] is the one reading of the clock
    the call makes; the status (whatever it is, a final one too),
    [processedAt] and the failure reason stay, and a [failureReason] in the
    patch is ignored. *)
Theorem updatePayment_metadata_only (w : World) (paymentId : string)
    (p : PaymentEntity) (dto : UpdatePaymentDto) (patch : gmap string json) :
  store_wf (payments w) ->
  PaymentRepository.Map_get paymentId (payments w) = Some p ->
  u_status dto = None ->
  u_metadata dto = Some patch ->
  exists w',
    PaymentService.updatePayment paymentId dto w
    = (Ok {| id := id p; amount := amount p; currency := currency p;
             paymentMethod := paymentMethod p; status := status p;
             customerId := customerId p; description := description p;
             metadata := Some (patch ∪ default ∅ (metadata p));
             createdAt := createdAt p;
             updatedAt := clock_source w (clock_reads w);
             processedAt := processedAt p;
             failureReason := failureReason p |}, w')
    /\ clock_reads w' = S (clock_reads w)
    /\ PaymentRepository.Map_get paymentId (payments w')
       = Some {| id := id p; amount := amount p; currency := currency p;
                 paymentMethod := paymentMethod p; status := status p;
                 customerId := customerId p; description := description p;
                 metadata := Some (patch ∪ default ∅ (metadata p));
                 createdAt := createdAt p;
                 updatedAt := clock_source w (clock_reads w);
                 processedAt := processedAt p;
                 failureReason := failureReason p |}.
Proof.
  intros Hwf Hget Hs Hm.
  pose proof (Map_get_key_id _ _ _ Hwf Hget) as <-.
  run. rewrite Hget. cbn. rewrite Hs, Hm. cbn.
  eexists. split; [reflexivity |]. cbn. split; [reflexivity |].
  apply (Map_get_set_eq _ (mkPayment _ _ _ _ _ _ _ _ _ _ _ _)).
Qed.

Lemma updatePayment_metadata_only_witness :
  let p := sample_payment "p1" REFUNDED 1000 in
  let dto := {| u_status := None; u_metadata := Some {[ "note" := JStr "x" ]};
                u_failureReason := Some "ignored" |} in
  exists p' w',
    PaymentService.updatePayment "p1" dto (world_of [("p1", p)]) = (Ok p', w')
    /\ status p' = REFUNDED
    /\ failureReason p' = None
    /\ metadata p' = Some {[ "note" := JStr "x" ]}.
Proof.
  intros p dto.
  destruct (updatePayment_metadata_only (world_of [("p1", p)]) "p1" p dto
              {[ "note" := JStr "x" ]} (store_wf_singleton _ _ _) eq_refl eq_refl eq_refl)
    as (w' & Hrun & _).
  eexists _, w'. split; [exact Hrun |]. cbn. done.
Defined.

(** X8. Metadata accumulates: two updates with the metadata patches [patch1]
    and then [patch2] leave the metadata that the one patch [patch2 ∪ patch1]
    (the keys of [patch2] winning) leaves, and every key the payment had is
    still there: no update removes a key. *)
Theorem metadata_patches_compose (w : World) (paymentId : string)
    (p : PaymentEntity) (patch1 patch2 : gmap string json) :
  store_wf (payments w) ->
  PaymentRepository.Map_get paymentId (payments w) = Some p ->
  let dto patch :=
    {| u_status := None; u_metadata := Some patch; u_failureReason := None |} in
  exists p1 p2 w2 p12 w12,
    update_all paymentId [dto patch1; dto patch2] w = (Ok [p1; p2], w2)
    /\ PaymentService.updatePayment paymentId (dto (patch2 ∪ patch1)) w = (Ok p12, w12)
    /\ metadata p2 = metadata p12
    /\ metadata p2 = Some (patch2 ∪ patch1 ∪ default ∅ (metadata p))
    /\ forall k, is_Some (default ∅ (metadata p) !! k) ->
                 is_Some (default ∅ (metadata p2) !! k).
Proof.
  intros Hwf Hget dto.
  destruct (updatePayment_effect w paymentId p (dto patch1) Hwf Hget)
    as (p1 & w1 & Hrun1 & Ht1 & _ & _ & Hm1 & _); [by intros s [=] |].
  assert (Hwf1 : store_wf (payments w1)).
  { pose proof (proj1 (proj2 (service_keeps_store_wf w Hwf)) paymentId (dto patch1)) as H.
    by rewrite Hrun1 in H. }
  assert (Hget1 : PaymentRepository.Map_get paymentId (payments w1) = Some p1).
  { destruct Ht1 as (-> & _). by eapply Map_get_replace_entry_eq. }
  destruct (updatePayment_effect w1 paymentId p1 (dto patch2) Hwf1 Hget1)
    as (p2 & w2 & Hrun2 & _ & _ & _ & Hm2 & _); [by intros s [=] |].
  destruct (updatePayment_effect w paymentId p (dto (patch2 ∪ patch1)) Hwf Hget)
    as (p12 & w12 & Hrun12 & _ & _ & _ & Hm12 & _); [by intros s [=] |].
  exists p1, p2, w2, p12, w12. split.
  { cbn [update_all]. unfold bind at 1. rewrite Hrun1.
    unfold bind at 1. unfold bind at 1. rewrite Hrun2. reflexivity. }
  split; [exact Hrun12 |].
  cbn [u_metadata dto] in Hm1, Hm2, Hm12. rewrite Hm2, Hm12, Hm1. cbn.
  split; [by rewrite (assoc_L (∪)) |].
  split; [by rewrite (assoc_L (∪)) |].
  intros k [v Hk]. rewrite !lookup_union. rewrite Hk.
  destruct (patch2 !! k), (patch1 !! k); by eexists.
Qed.

Lemma metadata_patches_compose_witness :
  let w := world_of [("p1", sample_payment "p1" PENDING 1000)] in
  let dto patch :=
    {| u_status := None; u_metadata := Some patch; u_failureReason := None |} in
  exists p1 p2 w2,
    update_all "p1" [dto {[ "a" := JNum 1 ]}; dto {[ "a" := JNum 2; "b" := JNum 3 ]}] w
    = (Ok [p1; p2], w2)
    /\ metadata p2
       = Some ({[ "a" := JNum 2; "b" := JNum 3 ]} ∪ {[ "a" := JNum 1 ]} ∪ ∅).
Proof.
  intros w dto.
  destruct (metadata_patches_compose w "p1" (sample_payment "p1" PENDING 1000)
              {[ "a" := JNum 1 ]} {[ "a" := JNum 2; "b" := JNum 3 ]}
              (store_wf_singleton _ _ _) eq_refl)
    as (p1 & p2 & w2 & _ & _ & Hrun & _ & _ & Hmeta & _).
  exists p1, p2, w2. split; [exact Hrun | exact Hmeta].
Defined.

(** ** Histories: what holds after every sequence of events *)

Lemma start_cases (w : World) (paymentId : string) :
  store_wf (payments w) ->
  PaymentService.processPaymentAsync_start paymentId w = (Ok false, w)
  \/ (exists p p' w',
        PaymentRepository.Map_get paymentId (payments w) = Some p
        /\ PaymentService.processPaymentAsync_start paymentId w = (Ok true, w')
        /\ touched paymentId p p' w w'
        /\ status p' = PROCESSING
        /\ metadata p' = metadata p
        /\ processedAt p' = processedAt p
        /\ failureReason p' = failureReason p
        /\ updatedAt p' = clock_source w (clock_reads w)
        /\ clock_reads w' = S (clock_reads w)
        /\ uuid_draws w' = uuid_draws w).
Proof.
  intros Hwf.
  destruct (PaymentRepository.Map_get paymentId (payments w)) as [p |] eqn:Hget.
  - right. destruct (start_effect w paymentId p Hwf Hget) as (p' & w' & H).
    by exists p, p', w'.
  - left. by apply start_missing.
Qed.

Lemma finish_cases (w : World) (paymentId : string) (r1 r2 : float) :
  store_wf (payments w) ->
  PaymentService.processPaymentAsync_finish paymentId r1 r2 w = (Ok tt, w)
  \/ (exists p p' w',
        PaymentRepository.Map_get paymentId (payments w) = Some p
        /\ PaymentService.processPaymentAsync_finish paymentId r1 r2 w = (Ok tt, w')
        /\ touched paymentId p p' w w'
        /\ processedAt p' = Some (clock_source w (S (clock_reads w)))
        /\ (status p' = FAILED \/ status p' = COMPLETED)).
Proof.
  intros Hwf.
  destruct (PaymentRepository.Map_get paymentId (payments w)) as [p |] eqn:Hget.
  - right.
    destruct (finish_effect w paymentId p r1 r2 Hwf Hget) as (p' & w' & Hrun & Ht & Hpr & H).
    exists p, p', w'. repeat (split; [done |]).
    destruct (PrimFloat.ltb r1 (PaymentService.getFailureRate p)); [left | right];
      apply H.
  - left. by apply finish_missing.
Qed.

Lemma touched_store_wf k p p' w w' :
  store_wf (payments w) -> PaymentRepository.Map_get k (payments w) = Some p ->
  touched k p p' w w' -> store_wf (payments w').
Proof.
  intros Hwf Hget (-> & _ & (Hid & _) & _).
  apply store_wf_replace; [| done].
  rewrite Hid. by eapply Map_get_key_id.
Qed.

Lemma happen_store_wf (e : Event) (w : World) :
  store_wf (payments w) -> store_wf (payments (happen e w)).
Proof.
  intros Hwf. event_cases createPayment_effect updatePayment_cases start_cases finish_cases
    e w Hwf; try done; try by eapply touched_store_wf.
  destruct Heff as (-> & _). by apply store_wf_Map_set.
Qed.

Lemma history_store_wf (events : list Event) : forall w,
  store_wf (payments w) -> store_wf (payments (history events w)).
Proof.
  induction events as [| e events IH]; intros w Hwf; [done |].
  apply IH, happen_store_wf, Hwf.
Qed.

(** What one event keeps, all events keep. *)
Lemma history_invariant (I : World -> Prop) :
  (forall e w, store_wf (payments w) -> I w -> I (happen e w)) ->
  forall events w, store_wf (payments w) -> I w -> I (history events w).
Proof.
  intros Hstep events. induction events as [| e events IH]; intros w Hwf HI; [done |].
  apply IH; [by apply happen_store_wf | by apply Hstep].
Qed.

(** X9. The file mirror follows the store: once the file holds the store,
    it holds the store after every sequence of requests and background
    steps, the rejected requests included; and whatever the file was, it
    holds the store from the first creation on. *)
Theorem file_follows_store (events : list Event) (w : World) :
  store_wf (payments w) ->
  (file_in_sync w -> file_in_sync (history events w))
  /\ (forall dto, file_in_sync (history (Served (Create dto) :: events) w)).
Proof.
  intros Hwf.
  assert (Hstep : forall e w, store_wf (payments w) -> file_in_sync w ->
                              file_in_sync (happen e w)).
  { clear. intros e w Hwf Hsync.
    event_cases createPayment_effect updatePayment_cases start_cases finish_cases
    e w Hwf; try done; try apply Ht. apply Heff. }
  split.
  - by apply history_invariant.
  - intros dto.
    change (file_in_sync (history events (happen (Served (Create dto)) w))).
    apply history_invariant; [done | by apply (happen_store_wf (Served (Create dto))) |].
    cbn [happen]. destruct (createPayment_effect dto w) as (p & w' & -> & _ & Hsync & _).
    exact Hsync.
Qed.

Lemma file_follows_store_witness :
  file_in_sync
    (history [Served (Create (mkCreateDto 500 "USD" CREDIT_CARD "c9" None None));
              ProcessingStarted "";
              Served (Update "a" (status_patch CANCELLED))]
       (world_of three_payments)).
Proof.
  apply (proj2 (file_follows_store _ (world_of three_payments) store_wf_three_payments)).
Defined.

Lemma Map_set_keys_prefix k v (m : list (string * PaymentEntity)) :
  m.*1 `prefix_of` (PaymentRepository.Map_set k v m).*1.
Proof.
  destruct (PaymentRepository.Map_get k m) eqn:Hget.
  - by rewrite (proj1 (Map_set_replace k v m ltac:(by eexists))).
  - rewrite (Map_set_fresh _ _ _ Hget), fmap_app. by apply prefix_app_r.
Qed.

(** X10. Nothing is ever deleted or moved: after every sequence of requests
    and background steps, the keys of the [Map] begin with the keys it had,
    in the same order. *)
Theorem payments_never_deleted (events : list Event) (w : World) :
  store_wf (payments w) ->
  (payments w).*1 `prefix_of` (payments (history events w)).*1.
Proof.
  intros Hwf.
  apply (history_invariant
           (fun w' => (payments w).*1 `prefix_of` (payments w').*1)); [| done | done].
  clear. intros e w' Hwf Hpre. etransitivity; [exact Hpre |]. clear Hpre.
  event_cases createPayment_effect updatePayment_cases start_cases finish_cases
    e w' Hwf; try done.
  - destruct Heff as (-> & _). apply Map_set_keys_prefix.
  - destruct Ht as (-> & _). by rewrite replace_entry_keys.
  - destruct Ht as (-> & _). by rewrite replace_entry_keys.
  - destruct Ht as (-> & _). by rewrite replace_entry_keys.
Qed.

Lemma payments_never_deleted_witness :
  ["a"; "b"; "c"] `prefix_of`
    (payments
       (history [Served (Create (mkCreateDto 500 "USD" CREDIT_CARD "c9" None None));
                 ProcessingFinished "b" 0.5 0.5]
          (world_of three_payments))).*1.
Proof.
  apply (payments_never_deleted _ (world_of three_payments) store_wf_three_payments).
Defined.

Lemma Forall_values_Map_set (P : PaymentEntity -> Prop) k v
    (m : list (string * PaymentEntity)) :
  Forall P m.*2 -> P v -> Forall P (PaymentRepository.Map_set k v m).*2.
Proof.
  intros Hm Hv. induction m as [| [k' v'] m IH]; cbn in *.
  - by repeat constructor.
  - apply Forall_cons in Hm as [Hv' Hm].
    destruct (String.eqb k k'); cbn; constructor; auto.
Qed.

Lemma Forall_values_replace_entry (P : PaymentEntity -> Prop) k v
    (m : list (string * PaymentEntity)) :
  Forall P m.*2 -> P v -> Forall P (replace_entry k v m).*2.
Proof.
  intros Hm Hv. unfold replace_entry. induction m as [| [k' v'] m IH]; cbn in *.
  - constructor.
  - apply Forall_cons in Hm as [Hv' Hm].
    destruct (String.eqb k' k); cbn; constructor; auto.
Qed.

Lemma Map_get_values k p (m : list (string * PaymentEntity)) :
  PaymentRepository.Map_get k m = Some p -> p ∈ m.*2.
Proof.
  induction m as [| [k' v] m IH]; cbn; [done |].
  destruct (String.eqb k k').
  - intros [= ->]. left.
  - intros H. right. auto.
Qed.

(** X11. A processed payment carries the time: when every stored payment
    whose status is COMPLETED, FAILED or REFUNDED has a [processedAt], this
    is so after every sequence of requests and background steps. *)
Theorem processedAt_invariant (events : list Event) (w : World) :
  store_wf (payments w) ->
  Forall processed_stamped (PaymentRepository.values w) ->
  Forall processed_stamped (PaymentRepository.values (history events w)).
Proof.
  apply (history_invariant
           (fun w => Forall processed_stamped (PaymentRepository.values w))).
  clear. intros e w Hwf Hinv. unfold PaymentRepository.values in *.
  event_cases createPayment_effect updatePayment_cases start_cases finish_cases
    e w Hwf; try done.
  - destruct Heff as (-> & _ & -> & _).
    apply Forall_values_Map_set; [done |].
    intros Hst. discriminate Hst.
  - destruct Ht as (-> & _).
    apply Forall_values_replace_entry; [done |].
    destruct Heff as (_ & Hst & _ & Hpr & _).
    assert (Hp : processed_stamped p).
    { eapply (proj1 (Forall_forall _ _) Hinv). by eapply Map_get_values. }
    unfold processed_stamped in *. rewrite Hst, Hpr.
    destruct (u_status dto) as [s |] eqn:Hs; cbn; [| done].
    specialize (Htable s eq_refl).
    apply isValidStatusTransition_table in Htable.
    destruct s; cbn; try discriminate; try (intros _; by eexists).
    destruct (status p); try discriminate Htable. intros _. by apply Hp.
  - destruct Ht as (-> & _).
    apply Forall_values_replace_entry; [done |].
    destruct Heff as (Hst & _). intros H. rewrite Hst in H. discriminate H.
  - destruct Ht as (-> & _).
    apply Forall_values_replace_entry; [done |].
    destruct Heff as (Hpr & _). intros _. rewrite Hpr. by eexists.
Qed.

Lemma processedAt_invariant_witness :
  Forall processed_stamped
    (PaymentRepository.values
       (history [Served (Update "a" (status_patch PROCESSING));
                 ProcessingFinished "a" 0.5 0.5;
                 Served (Update "a" (status_patch REFUNDED))]
          (world_of three_payments))).
Proof.
  apply (processedAt_invariant _ (world_of three_payments) store_wf_three_payments).
  repeat constructor; intros H; discriminate H.
Defined.

Lemma same_identity_refl p : same_identity p p.
Proof. by repeat split. Qed.

Lemma same_identity_trans p q r :
  same_identity p q -> same_identity q r -> same_identity p r.
Proof.
  unfold same_identity. intros (? & ? & ? & ? & ? & ? & ?) (? & ? & ? & ? & ? & ? & ?).
  repeat split; congruence.
Qed.

(** What an event does to the entry under [k]: it stays, or it is touched,
    or a creation drew [k] as its uuid. *)
Lemma happen_entry (e : Event) (w : World) (k : string) (p : PaymentEntity) :
  store_wf (payments w) ->
  PaymentRepository.Map_get k (payments w) = Some p ->
  uuid_source (happen e w) = uuid_source w
  /\ (uuid_draws w <= uuid_draws (happen e w))%nat
  /\ (is_request e -> uuid_source w (uuid_draws w) <> k ->
      exists p',
        PaymentRepository.Map_get k (payments (happen e w)) = Some p'
        /\ same_identity p p'
        /\ (status p' = status p \/ table_step (status p) (status p')))
  /\ (uuid_source w (uuid_draws w) <> k ->
      exists p',
        PaymentRepository.Map_get k (payments (happen e w)) = Some p'
        /\ same_identity p p').
Proof.
  intros Hwf Hgetk.
  assert (Htouched : forall k0 p0 p0' w',
            PaymentRepository.Map_get k0 (payments w) = Some p0 ->
            touched k0 p0 p0' w w' ->
            uuid_source w' = uuid_source w /\ (uuid_draws w <= uuid_draws w')%nat
            /\ exists p',
                 PaymentRepository.Map_get k (payments w') = Some p'
                 /\ same_identity p p'
                 /\ (k0 = k -> p0 = p /\ p' = p0') /\ (k0 <> k -> p' = p)).
  { intros k0 p0 p0' w' Hget0 (Hp & _ & Hsame & _ & Hu & _ & _ & Hd).
    split; [done |]. split; [done |]. rewrite Hp.
    destruct (decide (k0 = k)) as [-> | Hne].
    - rewrite Hgetk in Hget0. injection Hget0 as <-.
      exists p0'. split; [by eapply Map_get_replace_entry_eq |].
      split; [done |]. split; [done | by intros []].
    - exists p. rewrite Map_get_replace_entry_ne by done.
      split; [done |]. split; [apply same_identity_refl |].
      split; [by intros ? | done]. }
  event_cases createPayment_effect updatePayment_cases start_cases finish_cases
    e w Hwf.
  - destruct Heff as (Hp & _ & Hid & _ & Hu & _ & Hd & _).
    split; [done |]. split; [lia |].
    assert (Hfresh : uuid_source w (uuid_draws w) <> k ->
              PaymentRepository.Map_get k (payments w') = Some p).
    { intros Hne. rewrite Hp, Map_get_set_ne; [done |]. by rewrite Hid. }
    split; [intros _ Hne | intros Hne]; exists p;
      (split; [by apply Hfresh |]); [split |]; try apply same_identity_refl.
    by left.
  - split; [done |]. split; [done |].
    split; [intros _ _ | intros _]; exists p; (split; [done |]);
      [split |]; try apply same_identity_refl. by left.
  - destruct (Htouched _ _ _ _ Hget Ht) as (Hu & Hd & q & Hq & Hsame & Heq & Hne).
    split; [done |]. split; [done |].
    split; [intros _ _ | intros _]; exists q; (split; [done |]); [split |]; try done.
    destruct (decide (k = k0)) as [-> | Hk].
    + destruct (Heq eq_refl) as [-> ->].
      destruct Heff as (_ & Hst & _). rewrite Hst.
      destruct (u_status dto) as [s |]; cbn; [right; by apply Htable | by left].
    + rewrite (Hne ltac:(congruence)). by left.
  - split; [done |]. split; [done |].
    split; [by intros [] | intros _].
    exists p. split; [done | apply same_identity_refl].
  - destruct (Htouched _ _ _ _ Hget Ht) as (Hu & Hd & q & Hq & Hsame & _).
    split; [done |]. split; [done |].
    split; [by intros [] | intros _]. by exists q.
  - split; [done |]. split; [done |].
    split; [by intros [] | intros _].
    exists p. split; [done | apply same_identity_refl].
  - destruct (Htouched _ _ _ _ Hget Ht) as (Hu & Hd & q & Hq & Hsame & _).
    split; [done |]. split; [done |].
    split; [by intros [] | intros _]. by exists q.
Qed.

(** X12. What identifies a payment never changes: as long as no creation
    draws the id of a stored payment as its uuid, the payment stays stored
    under its id with the same id, amount, currency, payment method,
    customer, description and [createdAt], after every sequence of requests
    and background steps. *)
Theorem identity_kept (events : list Event) (w : World) (k : string) (p : PaymentEntity) :
  store_wf (payments w) ->
  PaymentRepository.Map_get k (payments w) = Some p ->
  (forall n, (uuid_draws w <= n)%nat -> uuid_source w n <> k) ->
  exists p',
    PaymentRepository.Map_get k (payments (history events w)) = Some p'
    /\ same_identity p p'.
Proof.
  revert w p. induction events as [| e events IH]; intros w p Hwf Hget Hfresh.
  - exists p. split; [done | apply same_identity_refl].
  - destruct (happen_entry e w k p Hwf Hget) as (Hu & Hd & _ & Hstep).
    destruct (Hstep (Hfresh _ (le_n _))) as (q & Hq & Hsame).
    destruct (IH (happen e w) q (happen_store_wf e w Hwf) Hq) as (p' & Hp' & Hsame').
    { intros n Hn. rewrite Hu. apply Hfresh. lia. }
    exists p'. split; [exact Hp' |]. by eapply same_identity_trans.
Qed.

Lemma tally_ne_a n : tally n <> "a".
Proof. destruct n as [| [| n]]; discriminate. Qed.

Lemma identity_kept_witness :
  exists p',
    PaymentRepository.Map_get "a"
      (payments
         (history [Served (Create (mkCreateDto 500 "USD" CREDIT_CARD "c9" None None));
                   ProcessingStarted "a"; ProcessingFinished "a" 0.5 0.5]
            (world_of three_payments))) = Some p'
    /\ same_identity (sample_payment "a" PENDING 300) p'.
Proof.
  apply (identity_kept _ (world_of three_payments) "a" _ store_wf_three_payments).
  - reflexivity.
  - intros n _. apply tally_ne_a.
Defined.





(** ** The background processing *)

(** X14. The background processing does not consult the transition table:
    its first step moves the stored payment to PROCESSING whatever its
    status is (CANCELLED, REFUNDED and COMPLETED too), where the same change
    requested through [updatePayment] is rejected for every status but
    PENDING. The step keeps [processedAt], the failure reason and the
    metadata, and reads the clock once. *)
Theorem processing_starts_from_any_status (w : World) (paymentId : string)
    (p : PaymentEntity) :
  store_wf (payments w) ->
  PaymentRepository.Map_get paymentId (payments w) = Some p ->
  (status p <> PENDING ->
   PaymentService.updatePayment paymentId (status_patch PROCESSING) w
   = (Throw (InvalidPaymentStatusException (status p) PROCESSING), w))
  /\ exists p' w',
       PaymentService.processPaymentAsync_start paymentId w = (Ok true, w')
       /\ PaymentRepository.Map_get paymentId (payments w') = Some p'
       /\ status p' = PROCESSING
       /\ same_identity p p'
       /\ metadata p' = metadata p
       /\ processedAt p' = processedAt p
       /\ failureReason p' = failureReason p
       /\ updatedAt p' = clock_source w (clock_reads w)
       /\ clock_reads w' = S (clock_reads w).
Proof.
  intros Hwf Hget. split.
  - intros Hst.
    apply (proj2 (updatePayment_rejected w paymentId (status_patch PROCESSING)) p);
      [done | done |].
    by destruct (status p).
  - destruct (start_effect w paymentId p Hwf Hget)
      as (p' & w' & Hrun & Ht & Hst & Hm & Hpr & Hf & Hu & Hc & _).
    exists p', w'. split; [done |].
    destruct Ht as (-> & _ & Hsame & _).
    split; [by eapply Map_get_replace_entry_eq |]. done.
Qed.

Lemma processing_starts_from_any_status_witness :
  let p := sample_payment "p1" CANCELLED 1000 in
  let w := world_of [("p1", p)] in
  PaymentService.updatePayment "p1" (status_patch PROCESSING) w
  = (Throw (InvalidPaymentStatusException CANCELLED PROCESSING), w)
  /\ exists p' w',
       PaymentService.processPaymentAsync_start "p1" w = (Ok true, w')
       /\ PaymentRepository.Map_get "p1" (payments w') = Some p'
       /\ status p' = PROCESSING.
Proof.
  intros p w.
  destruct (processing_starts_from_any_status w "p1" p (store_wf_singleton _ _ _) eq_refl)
    as (Hrej & p' & w' & Hrun & Hget & Hst & _).
  split; [by apply Hrej |]. by exists p', w'.
Defined.


Lemma getFailureRate_same_identity p p' :
  same_identity p p' ->
  PaymentService.getFailureRate p' = PaymentService.getFailureRate p.
Proof.
  intros (_ & Ha & _ & Hm & _). unfold PaymentService.getFailureRate.
  by rewrite Ha, Hm.
Qed.



Lemma occurrences_String_replace c s :
  occurrences c (PaymentService.String_replace c "" s) = pred (occurrences c s).
Proof.
  induction s as [| c' s IH]; cbn; [done |].
  destruct (Ascii.eqb c c') eqn:E; cbn.
  - done.
  - rewrite E. cbn. exact IH.
Qed.

Lemma length_String_replace c s :
  String.length (PaymentService.String_replace c "" s)
  = (String.length s - (if decide (occurrences c s = 0%nat) then 0 else 1))%nat.
Proof.
  induction s as [| c' s IH]; cbn; [done |].
  destruct (Ascii.eqb c c') eqn:E; cbn.
  - change (String.append "" s) with s. clear IH. destruct (decide _); lia.
  - rewrite IH. destruct (decide (occurrences c s = 0%nat)); [lia |].
    destruct s; cbn in *; [done | lia].
Qed.

(** X16. The transaction id of an approved payment is "txn_" followed by
    the uuid without its first hyphen: [replace('-', '')] removes one
    occurrence, so all the other hyphens of the uuid are still there (three
    of the four of a uuid), and the id is one character shorter than
    "txn_" and the uuid together. The processing draws one uuid. *)
Theorem transactionId_keeps_hyphens (payment : PaymentEntity) (r1 r2 : float) (w : World) :
  PrimFloat.ltb r1 (PaymentService.getFailureRate payment) = false ->
  let uuid := uuid_source w (uuid_draws w) in
  exists transactionId w',
    PaymentService.simulatePaymentProcessing payment r1 r2 w
    = (Ok {| success := true; transactionId := Some transactionId;
             response := Some "Payment approved"; error := None |}, w')
    /\ transactionId = String.append "txn_" (PaymentService.String_replace "-" "" uuid)
    /\ occurrences "-" transactionId = pred (occurrences "-" uuid)
    /\ (occurrences "-" uuid <> 0%nat ->
        String.length transactionId = (3 + String.length uuid)%nat)
    /\ uuid_draws w' = S (uuid_draws w).
Proof.
  intros Hok uuid. unfold PaymentService.simulatePaymentProcessing. rewrite Hok.
  eexists _, _. split; [reflexivity |]. split; [reflexivity |].
  split; [| split; [| reflexivity]].
  - change (occurrences "-" (PaymentService.String_replace "-" "" uuid)
            = pred (occurrences "-" uuid)).
    apply occurrences_String_replace.
  - intros Hsome.
    change (S (S (S (S (String.length (PaymentService.String_replace "-" "" uuid)))))
            = (3 + String.length uuid)%nat).
    rewrite length_String_replace.
    destruct (decide _) as [H0 | _]; [done |].
    destruct uuid; cbn in *; [done | lia].
Qed.

Lemma transactionId_keeps_hyphens_witness :
  let w := {| payments := []; file := None; scheduled := [];
              clock_source := ticking_clock; clock_reads := 0;
              uuid_source := fun _ => "123e4567-e89b-42d3-a456-426614174000";
              uuid_draws := 0 |} in
  exists w',
    PaymentService.simulatePaymentProcessing (sample_payment "p1" PROCESSING 1000)
      0.5 0.5 w
    = (Ok {| success := true;
             transactionId := Some "txn_123e4567e89b-42d3-a456-426614174000";
             response := Some "Payment approved"; error := None |}, w').
Proof.
  intros w.
  destruct (transactionId_keeps_hyphens (sample_payment "p1" PROCESSING 1000)
              0.5 0.5 w eq_refl) as (t & w' & Hrun & -> & _).
  exists w'. exact Hrun.
Defined.

Lemma history_app (events1 events2 : list Event) (w : World) :
  history (events1 ++ events2) w = history events2 (history events1 w).
Proof. apply foldl_app. Qed.

(** The entry under [k] over a sequence of events none of which draws [k]
    as a uuid. *)
Lemma history_entry (events : list Event) : forall (w : World) (k : string)
    (p : PaymentEntity),
  store_wf (payments w) ->
  PaymentRepository.Map_get k (payments w) = Some p ->
  (forall n, (uuid_draws w <= n)%nat -> uuid_source w n <> k) ->
  exists p',
    PaymentRepository.Map_get k (payments (history events w)) = Some p'
    /\ same_identity p p'
    /\ store_wf (payments (history events w))
    /\ uuid_source (history events w) = uuid_source w
    /\ (uuid_draws w <= uuid_draws (history events w))%nat.
Proof.
  induction events as [| e events IH]; intros w k p Hwf Hget Hfresh.
  - exists p. split; [done |]. split; [apply same_identity_refl | done].
  - destruct (happen_entry e w k p Hwf Hget) as (Hu & Hd & _ & Hstep).
    destruct (Hstep (Hfresh _ (le_n _))) as (q & Hq & Hsame).
    destruct (IH (happen e w) k q (happen_store_wf e w Hwf) Hq)
      as (p' & Hp' & Hsame' & Hwf' & Hu' & Hd').
    { intros n Hn. rewrite Hu. apply Hfresh. lia. }
    exists p'. split; [exact Hp' |].
    split; [by eapply same_identity_trans |]. split; [exact Hwf' |].
    split; [by rewrite <- Hu |].
    change (uuid_draws w <= uuid_draws (history events (happen e w)))%nat. lia.
Qed.

(** X28. Nothing that happens in between stops the processing of a created
    payment or changes its outcome: when a payment is created, and later the
    two steps of its background processing run, then whatever requests and
    steps of other processings come before, between and after the creation
    and the two steps (a cancellation of the payment too), the payment ends
    FAILED when the first random number is below the failure rate of its
    amount and payment method, and COMPLETED otherwise, with [processedAt]
    set; provided no later creation draws the same uuid again. *)
Theorem created_payment_is_processed (dto : CreatePaymentDto)
    (between1 between2 : list Event) (r1 r2 : float) (w : World) :
  store_wf (payments w) ->
  (forall n, (uuid_draws w < n)%nat -> uuid_source w n <> uuid_source w (uuid_draws w)) ->
  exists created p',
    fst (PaymentService.createPayment dto w) = Ok created
    /\ PaymentRepository.Map_get (id created)
         (payments
            (history ([Served (Create dto)] ++ between1
                      ++ [ProcessingStarted (id created)] ++ between2
                      ++ [ProcessingFinished (id created) r1 r2]) w)) = Some p'
    /\ same_identity created p'
    /\ status p' = (if PrimFloat.ltb r1 (PaymentService.getFailureRate created)
                    then FAILED else COMPLETED)
    /\ is_Some (processedAt p').
Proof.
  intros Hwf Hfresh.
  destruct (createPayment_effect dto w)
    as (p0 & w1 & Hrun & Hp & _ & Hp0 & _ & Hu1 & _ & Hd1 & _).
  assert (Hid : id p0 = uuid_source w (uuid_draws w)) by (by rewrite Hp0).
  assert (Hwf1 : store_wf (payments w1)) by (rewrite Hp; by apply store_wf_Map_set).
  assert (Hget1 : PaymentRepository.Map_get (id p0) (payments w1) = Some p0)
    by (rewrite Hp; apply Map_get_set_eq).
  exists p0. rewrite Hrun. cbn [fst].
  rewrite !history_app.
  change (history [Served (Create dto)] w)
    with (snd (PaymentService.createPayment dto w)).
  rewrite Hrun. cbn [snd].
  destruct (history_entry between1 w1 (id p0) p0 Hwf1 Hget1)
    as (p2 & Hget2 & Hsame2 & Hwf2 & Hu2 & Hd2).
  { intros n Hn. rewrite Hu1, Hid. apply Hfresh. lia. }
  set (w2 := history between1 w1) in *.
  change (history [ProcessingStarted (id p0)] w2)
    with (snd (PaymentService.processPaymentAsync_start (id p0) w2)).
  destruct (start_effect w2 (id p0) p2 Hwf2 Hget2)
    as (p3 & w3 & Hrun3 & Ht3 & _ & _ & _ & _ & _ & _ & Hd3).
  rewrite Hrun3. cbn [snd].
  assert (Hwf3 : store_wf (payments w3)) by (by eapply touched_store_wf).
  assert (Hget3 : PaymentRepository.Map_get (id p0) (payments w3) = Some p3).
  { destruct Ht3 as (-> & _). by eapply Map_get_replace_entry_eq. }
  assert (Hsame3 : same_identity p2 p3) by apply Ht3.
  assert (Hu3 : uuid_source w3 = uuid_source w2) by apply Ht3.
  destruct (history_entry between2 w3 (id p0) p3 Hwf3 Hget3)
    as (p4 & Hget4 & Hsame4 & Hwf4 & Hu4 & Hd4).
  { intros n Hn. rewrite Hu3, Hu2, Hu1, Hid. apply Hfresh. lia. }
  set (w4 := history between2 w3) in *.
  change (history [ProcessingFinished (id p0) r1 r2] w4)
    with (snd (PaymentService.processPaymentAsync_finish (id p0) r1 r2 w4)).
  destruct (finish_effect w4 (id p0) p4 r1 r2 Hwf4 Hget4)
    as (p5 & w5 & Hrun5 & Ht5 & Hpr5 & Hcase).
  rewrite Hrun5. cbn [snd].
  assert (Hsame04 : same_identity p0 p4).
  { eapply same_identity_trans; [exact Hsame2 |].
    eapply same_identity_trans; [exact Hsame3 | exact Hsame4]. }
  exists p5. split; [done |]. split.
  { destruct Ht5 as (-> & _). by eapply Map_get_replace_entry_eq. }
  split.
  { eapply same_identity_trans; [exact Hsame04 | apply Ht5]. }
  rewrite (getFailureRate_same_identity _ _ Hsame04) in Hcase.
  split; [| rewrite Hpr5; by eexists].
  destruct (PrimFloat.ltb r1 (PaymentService.getFailureRate p0)); apply Hcase.
Qed.

Lemma created_payment_is_processed_witness :
  let dto := mkCreateDto 500 "USD" DEBIT_CARD "c9" None None in
  exists p',
    PaymentRepository.Map_get ""
      (payments
         (history [Served (Create dto);
                   Served (Update "" (status_patch CANCELLED));
                   ProcessingStarted "";
                   Served (Create dto);
                   ProcessingFinished "" 0.5 0.5]
            (world_of three_payments))) = Some p'
    /\ status p' = COMPLETED
    /\ amount p' = 500.
Proof.
  intros dto.
  destruct (created_payment_is_processed dto
              [Served (Update "" (status_patch CANCELLED))]
              [Served (Create dto)] 0.5 0.5
              (world_of three_payments) store_wf_three_payments)
    as (created & p' & Hcreated & Hget & Hsame & Hst & _).
  - intros n Hn. destruct n; [lia | discriminate].
  - injection Hcreated as <-. exists p'. split; [exact Hget |].
    split; [exact Hst | apply Hsame].
Defined.

(** ** Pages *)

Lemma toJSON_id (p : PaymentEntity) : PaymentEntity.toJSON p = p.
Proof. by destruct p. Qed.

Lemma fmap_toJSON (l : list PaymentEntity) : PaymentEntity.toJSON <$> l = l.
Proof.
  induction l as [| x l IH]; [done |]. cbn. by rewrite toJSON_id, IH.
Qed.

Lemma serviceQuery_unfold (f : Filter) (dto : PaginationDto) (w : World) :
  serviceQuery f dto w
  = (Ok {| r_data := page_data f dto (pg_page dto) w;
           r_meta :=
             {| m_page := pg_page dto;
                m_limit := pg_limit dto;
                m_total := Z.of_nat (length (filtered f w));
                m_totalPages :=
                  PaymentService.Math_ceil_div (Z.of_nat (length (filtered f w)))
                    (pg_limit dto);
                m_hasNext :=
                  PaymentService.lt_number (pg_page dto)
                    (PaymentService.Math_ceil_div (Z.of_nat (length (filtered f w)))
                       (pg_limit dto));
                m_hasPrevious := 1 <? pg_page dto |} |}, w).
Proof.
  rewrite <- (Array_sort_length
                (PaymentRepository.comparator (pg_sortBy dto) (pg_sortOrder dto))
                (filtered f w)).
  destruct f; cbn; unfold filtered, page_data, sorted_payments, filtered;
    unfold PaymentService.getAllPaymentsPaginated,
      PaymentService.getPaymentsByCustomerIdPaginated,
      PaymentService.getPaymentsByStatusPaginated,
      PaymentRepository.findPaginated, PaymentRepository.findByCustomerIdPaginated,
      PaymentRepository.findByStatusPaginated, bind, ret; cbn;
    rewrite ?filter_matches_NoFilter; reflexivity.
Qed.

Lemma page_data_slice (f : Filter) (dto : PaginationDto) (page : Z) (w : World) :
  1 <= page -> 0 <= pg_limit dto ->
  page_data f dto page w
  = take (Z.to_nat (pg_limit dto))
      (drop (Z.to_nat ((page - 1) * pg_limit dto)) (sorted_payments f dto w)).
Proof.
  intros Hpage Hlimit. unfold page_data, PaymentRepository.paginateResults. cbn [data].
  apply Array_slice_nonneg; nia.
Qed.

Lemma chunks_join {A} (l : list A) (c n : nat) :
  mjoin ((fun i => take c (drop ((i - 1) * c) l)) <$> seq 1 n) = take (n * c) l.
Proof.
  induction n as [| n IH]; [done |].
  rewrite seq_S, fmap_app, join_app, IH. cbn [fmap list_fmap mjoin list_join].
  rewrite app_nil_r.
  replace ((1 + n - 1) * c)%nat with (n * c)%nat by lia.
  rewrite take_take_drop. f_equal. lia.
Qed.

Lemma ceil_div_bounds (a b : Z) :
  0 <= a -> 1 <= b ->
  0 <= - ((- a) / b) /\ (- ((- a) / b) - 1) * b < a <= - ((- a) / b) * b.
Proof. intros Ha Hb. Z.div_mod_to_equations. nia. Qed.

(** X17. The pages of a query cover its result: for a limit of at least 1,
    [totalPages] of the answer is a number [n], and the pages 1 to [n], one
    after the other, are the filtered payments in the order of the query,
    each payment on exactly one page; every page before the last is full. *)
Theorem pages_cover_the_result (f : Filter) (dto : PaginationDto) (w : World) :
  1 <= pg_limit dto ->
  exists resp n,
    serviceQuery f dto w = (Ok resp, w)
    /\ m_totalPages (r_meta resp) = Finite (Z.of_nat n)
    /\ mjoin ((fun i => page_data f dto (Z.of_nat i) w) <$> seq 1 n)
       = sorted_payments f dto w
    /\ sorted_payments f dto w ≡ₚ filtered f w
    /\ forall i, (1 <= i < n)%nat ->
                 Z.of_nat (length (page_data f dto (Z.of_nat i) w)) = pg_limit dto.
Proof.
  intros Hlimit. rewrite serviceQuery_unfold.
  set (total := Z.of_nat (length (filtered f w))).
  destruct (ceil_div_bounds total (pg_limit dto) ltac:(lia) Hlimit) as [Hn [Hlo Hhi]].
  eexists _, (Z.to_nat (- ((- total) / pg_limit dto))).
  split; [reflexivity |]. cbn [r_meta m_totalPages].
  assert (Hlen : length (sorted_payments f dto w) = length (filtered f w))
    by apply Array_sort_length.
  split; [| split; [| split]].
  - unfold PaymentService.Math_ceil_div.
    destruct (Z.eqb_spec (pg_limit dto) 0); [lia |]. f_equal. lia.
  - rewrite <- (take_ge (sorted_payments f dto w)
                    (Z.to_nat (- ((- total) / pg_limit dto)) * Z.to_nat (pg_limit dto)))
      by (rewrite Hlen; nia).
    rewrite <- chunks_join. f_equal. apply list_fmap_ext.
    intros j i Hi. apply lookup_seq in Hi as [-> _].
    rewrite page_data_slice by lia. do 2 f_equal. nia.
  - apply Array_sort_Permutation.
  - intros i Hi. rewrite page_data_slice by lia.
    rewrite length_take, length_drop, Hlen. nia.
Qed.

Lemma pages_cover_the_result_witness :
  let dto := {| pg_page := 1; pg_limit := 2; pg_sortBy := "amount";
                pg_sortOrder := asc |} in
  exists resp,
    serviceQuery NoFilter dto (world_of three_payments)
    = (Ok resp, world_of three_payments)
    /\ m_totalPages (r_meta resp) = Finite 2
    /\ (page_data NoFilter dto 1 (world_of three_payments)
        ++ page_data NoFilter dto 2 (world_of three_payments))%list
       = sorted_payments NoFilter dto (world_of three_payments).
Proof.
  intros dto.
  destruct (pages_cover_the_result NoFilter dto (world_of three_payments) ltac:(cbn; lia))
    as (resp & n & Hrun & Hpages & Hjoin & _).
  assert (Hval : m_totalPages (r_meta resp) = Finite 2).
  { pose proof Hrun as Hrun'. rewrite serviceQuery_unfold in Hrun'.
    injection Hrun' as <-. by vm_compute. }
  assert (Hn : n = 2%nat).
  { rewrite Hval in Hpages. injection Hpages as Hn. lia. }
  subst n. exists resp. split; [exact Hrun |]. split; [exact Hpages |].
  cbn [seq fmap list_fmap mjoin list_join] in Hjoin.
  rewrite app_nil_r in Hjoin. exact Hjoin.
Defined.

(** X18. [hasNext] and [hasPrevious] of the answer: for a page of at least 0
    and a limit of at least 1, [hasNext] is true exactly when the next page
    has a payment on it, and [hasPrevious] is true exactly when the page
    is beyond the first (also when the page before is empty, far behind the
    last page). *)
Theorem hasNext_iff_next_page (f : Filter) (dto : PaginationDto) (w : World) :
  0 <= pg_page dto -> 1 <= pg_limit dto ->
  exists resp,
    serviceQuery f dto w = (Ok resp, w)
    /\ (m_hasNext (r_meta resp) = true
        <-> page_data f dto (pg_page dto + 1) w <> [])
    /\ (m_hasPrevious (r_meta resp) = true <-> 1 < pg_page dto)
    /\ r_data resp = page_data f dto (pg_page dto) w.
Proof.
  intros Hpage Hlimit. rewrite serviceQuery_unfold. eexists. split; [reflexivity |].
  cbn [r_meta r_data m_hasNext m_hasPrevious].
  split; [| split; [apply Z.ltb_lt | reflexivity]].
  set (total := Z.of_nat (length (filtered f w))).
  destruct (ceil_div_bounds total (pg_limit dto) ltac:(lia) Hlimit) as [Hn [Hlo Hhi]].
  assert (Hlen : length (sorted_payments f dto w) = length (filtered f w))
    by apply Array_sort_length.
  unfold PaymentService.Math_ceil_div.
  destruct (Z.eqb_spec (pg_limit dto) 0); [lia |]. cbn [PaymentService.lt_number].
  rewrite Z.ltb_lt, page_data_slice by lia.
  replace (pg_page dto + 1 - 1) with (pg_page dto) by lia.
  rewrite <- length_zero_iff_nil, length_take, length_drop, Hlen.
  fold total in Hlo, Hhi |- *. split; intros H; nia.
Qed.

Lemma hasNext_iff_next_page_witness :
  let dto := {| pg_page := 1; pg_limit := 2; pg_sortBy := "amount";
                pg_sortOrder := asc |} in
  exists resp,
    serviceQuery (ByCustomer "c1") dto (world_of three_payments)
    = (Ok resp, world_of three_payments)
    /\ m_hasNext (r_meta resp) = true
    /\ m_hasPrevious (r_meta resp) = false.
Proof.
  intros dto.
  destruct (hasNext_iff_next_page (ByCustomer "c1") dto (world_of three_payments)
              ltac:(cbn; lia) ltac:(cbn; lia)) as (resp & Hrun & Hnext & Hprev & _).
  exists resp. split; [exact Hrun |]. split.
  - apply Hnext. by vm_compute.
  - destruct (m_hasPrevious (r_meta resp)); [| done].
    pose proof (proj1 Hprev eq_refl) as H. cbn in H. lia.
Defined.

(** X19. A limit of 0 is not rejected by the service: every page of every
    query is then empty; with at least one matching payment [totalPages] is
    [Infinity] and [hasNext] is true on every page, and with none
    [totalPages] is [NaN] and [hasNext] is false. *)
Theorem limit_zero (f : Filter) (dto : PaginationDto) (w : World) :
  pg_limit dto = 0 ->
  exists resp,
    serviceQuery f dto w = (Ok resp, w)
    /\ r_data resp = []
    /\ m_total (r_meta resp) = Z.of_nat (length (filtered f w))
    /\ (filtered f w <> [] ->
        m_totalPages (r_meta resp) = PosInfinity /\ m_hasNext (r_meta resp) = true)
    /\ (filtered f w = [] ->
        m_totalPages (r_meta resp) = NaN /\ m_hasNext (r_meta resp) = false).
Proof.
  intros Hlimit. rewrite serviceQuery_unfold. eexists. split; [reflexivity |].
  cbn [r_meta r_data m_total m_totalPages m_hasNext]. rewrite Hlimit.
  split.
  - unfold page_data, PaymentRepository.paginateResults. cbn [data]. rewrite Hlimit.
    unfold Array_slice. replace ((pg_page dto - 1) * 0 + 0) with 0 by lia.
    replace ((pg_page dto - 1) * 0) with 0 by lia.
    change (0 <? 0) with false. cbn iota zeta.
    by rewrite Z.sub_diag.
  - split; [done |]. unfold PaymentService.Math_ceil_div. cbn.
    split; intros H.
    + destruct (filtered f w); [done |]. by cbn.
    + by rewrite H.
Qed.

Lemma limit_zero_witness :
  let dto := {| pg_page := 7; pg_limit := 0; pg_sortBy := "amount";
                pg_sortOrder := asc |} in
  exists resp,
    serviceQuery NoFilter dto (world_of three_payments)
    = (Ok resp, world_of three_payments)
    /\ r_data resp = []
    /\ m_totalPages (r_meta resp) = PosInfinity
    /\ m_hasNext (r_meta resp) = true.
Proof.
  intros dto.
  destruct (limit_zero NoFilter dto (world_of three_payments) eq_refl)
    as (resp & Hrun & Hdata & _ & Hsome & _).
  exists resp. split; [exact Hrun |]. split; [exact Hdata |].
  apply Hsome. by vm_compute.
Defined.

(** X20. The filter of [GET /payments]: a non-empty [customerId] decides,
    and a [status] given with it is ignored; without it (or with the empty
    string) a [status] decides; with neither, all payments are listed. The
    answer is the page of the service for that filter: every payment on it
    matches the filter, and [total] counts all the stored payments that
    match it. Nothing is changed. *)
Theorem getAllPayments_filter (queryDto : PaymentQueryDto) (w : World) :
  let f := controller_filter queryDto in
  (forall customer, q_customerId queryDto = Some customer -> customer <> "" ->
                    f = ByCustomer customer)
  /\ exists resp,
       PaymentController.getAllPayments queryDto w = (Ok resp, w)
       /\ serviceQuery f (q_pagination queryDto) w = (Ok resp, w)
       /\ Forall (matches f) (r_data resp)
       /\ m_total (r_meta resp) = Z.of_nat (length (filter (matches f)
                                                        (PaymentRepository.values w))).
Proof.
  intros f. split.
  { intros customer Hc Hne. unfold f, controller_filter. rewrite Hc.
    apply String.eqb_neq in Hne. by rewrite Hne. }
  assert (Hrun : PaymentController.getAllPayments queryDto w
                 = serviceQuery f (q_pagination queryDto) w).
  { unfold PaymentController.getAllPayments.
    match goal with
    | |- bind ?inner _ _ = _ =>
        assert (Hinner : inner = serviceQuery f (q_pagination queryDto))
    end.
    { unfold f, controller_filter.
      destruct (q_customerId queryDto) as [customer |]; cbn;
        [destruct (String.eqb customer ""); cbn |];
        by destruct (q_status queryDto). }
    rewrite Hinner. unfold bind. rewrite serviceQuery_unfold. unfold ret.
    cbn [r_data r_meta]. by rewrite fmap_toJSON. }
  rewrite Hrun, serviceQuery_unfold. eexists. split; [reflexivity |].
  split; [reflexivity |]. cbn [r_data r_meta m_total]. split; [| reflexivity].
  unfold page_data, PaymentRepository.paginateResults. cbn [data].
  eapply Forall_forall. intros x Hx.
  eapply sublist_subseteq in Hx; [| apply Array_slice_sublist].
  unfold sorted_payments in Hx. rewrite Array_sort_Permutation in Hx.
  unfold filtered in Hx. by apply list_elem_of_filter in Hx as [? _].
Qed.

(** ** The order of a query *)

Lemma getSortValue_numeric sortBy payment :
  sortBy ∉ text_sortBy ->
  PaymentRepository.getSortValue payment sortBy = SNum (numeric_key sortBy payment).
Proof.
  intros Hnot. unfold numeric_key, PaymentRepository.getSortValue.
  repeat match goal with
  | |- context [String.eqb sortBy ?k] =>
      destruct (String.eqb_spec sortBy k) as [-> | _]
  end;
  try reflexivity;
  exfalso; apply Hnot; apply (bool_decide_unpack _); by vm_compute.
Qed.

Lemma sort_numeric_sorted sortBy (l : list PaymentEntity) :
  sortBy ∉ text_sortBy ->
  StronglySorted (fun a b => numeric_key sortBy a <= numeric_key sortBy b)
    (Array_sort (PaymentRepository.comparator sortBy asc) l)
  /\ StronglySorted (fun a b => numeric_key sortBy b <= numeric_key sortBy a)
       (Array_sort (PaymentRepository.comparator sortBy desc) l).
Proof.
  intros Hnot. split; apply Array_sort_sorted.
  - intros a b c ? ?. lia.
  - intros y x. unfold PaymentRepository.comparator.
    rewrite !getSortValue_numeric by done. cbn.
    destruct (Z.ltb_spec (numeric_key sortBy x) (numeric_key sortBy y)); lia.
  - intros y x. unfold PaymentRepository.comparator.
    rewrite !getSortValue_numeric by done. cbn.
    destruct (Z.ltb_spec (numeric_key sortBy x) (numeric_key sortBy y)); lia.
  - intros a b c ? ?. lia.
  - intros y x. unfold PaymentRepository.comparator.
    rewrite !getSortValue_numeric by done. unfold js_lt. cbn.
    destruct (Z.ltb_spec (numeric_key sortBy y) (numeric_key sortBy x)); lia.
  - intros y x. unfold PaymentRepository.comparator.
    rewrite !getSortValue_numeric by done. unfold js_lt. cbn.
    destruct (Z.ltb_spec (numeric_key sortBy y) (numeric_key sortBy x)); lia.
Qed.

Lemma StronglySorted_weaken {A} (R1 R2 : relation A) (l : list A) :
  (forall x y, R1 x y -> R2 x y) -> StronglySorted R1 l -> StronglySorted R2 l.
Proof.
  intros H. induction 1 as [| x l Hs IH Hx]; constructor; [done |].
  eapply Forall_impl; [exact Hx | auto].
Qed.

Lemma StronglySorted_reverse_flip {A} (R : relation A) (l : list A) :
  StronglySorted R l -> StronglySorted (flip R) (reverse l).
Proof.
  induction 1 as [| x l Hs IH Hx]; [constructor |].
  rewrite reverse_cons.
  apply StronglySorted_app_2; [| exact IH | repeat constructor].
  intros a b Ha Hb. apply list_elem_of_singleton in Hb as ->.
  rewrite elem_of_reverse in Ha.
  rewrite Forall_forall in Hx. exact (Hx a Ha).
Qed.

(** X21. Sorting by a number ([amount], [createdAt], [updatedAt], and every
    unknown [sortBy], which sorts by [createdAt]): when the matching payments
    have pairwise distinct values, the ascending order is strictly
    increasing, and the descending order is the ascending one reversed. *)
Theorem desc_is_reverse_of_asc (f : Filter) (page limit : Z) (sortBy : string)
    (w : World) :
  sortBy ∉ text_sortBy ->
  NoDup (numeric_key sortBy <$> filtered f w) ->
  let ascending := sorted_payments f (mkPagination page limit sortBy asc) w in
  let descending := sorted_payments f (mkPagination page limit sortBy desc) w in
  StronglySorted (fun a b => numeric_key sortBy a < numeric_key sortBy b) ascending
  /\ descending = reverse ascending.
Proof.
  intros Hnot Hnd ascending descending.
  destruct (sort_numeric_sorted sortBy (filtered f w) Hnot) as [Hasc Hdesc].
  assert (Hstrict : StronglySorted
            (fun a b => numeric_key sortBy a < numeric_key sortBy b) ascending).
  { apply StronglySorted_strict; [exact Hasc |].
    unfold ascending, sorted_payments. cbn. by rewrite Array_sort_Permutation. }
  split; [exact Hstrict |].
  apply (StronglySorted_unique_strong
           (fun a b => numeric_key sortBy b < numeric_key sortBy a)).
  - intros x1 x2 _ _ H12 H21. lia.
  - assert (H : StronglySorted
              (fun a b => - numeric_key sortBy a < - numeric_key sortBy b) descending).
    { apply (StronglySorted_strict (fun p => - numeric_key sortBy p)).
      - eapply StronglySorted_weaken; [| exact Hdesc].
        intros a b Hab. cbn beta in Hab |- *. lia.
      - unfold descending, sorted_payments. cbn. rewrite Array_sort_Permutation.
        rewrite (list_fmap_compose (numeric_key sortBy) Z.opp).
        apply NoDup_fmap_2; [| exact Hnd]. intros a b Hab. lia. }
    eapply StronglySorted_weaken; [| exact H]. intros a b Hab. cbn beta in Hab |- *. lia.
  - by apply (StronglySorted_reverse_flip _ _ Hstrict).
  - unfold descending, ascending, sorted_payments. cbn.
    by rewrite reverse_Permutation, !Array_sort_Permutation.
Qed.

Lemma desc_is_reverse_of_asc_witness :
  sorted_payments NoFilter (mkPagination 1 10 "amount" desc) (world_of three_payments)
  = reverse [sample_payment "b" PENDING 100; sample_payment "c" PENDING 200;
             sample_payment "a" PENDING 300].
Proof.
  destruct (desc_is_reverse_of_asc NoFilter 1 10 "amount" (world_of three_payments))
    as [_ Hrev].
  - apply (bool_decide_unpack _). by vm_compute.
  - apply (bool_decide_unpack _). by vm_compute.
  - rewrite Hrev. f_equal.
Defined.

Lemma comparator_status_rank (a b : PaymentEntity) :
  0 < PaymentRepository.comparator "status" asc a b
  <-> alphabetical_rank (status b) < alphabetical_rank (status a).
Proof.
  unfold PaymentRepository.comparator. cbn.
  destruct (status a), (status b); vm_compute; split; intros H; done.
Qed.

(** X22. Sorting by status orders the payments by the text of the status,
    not by the life cycle: in ascending order cancelled comes first, then
    completed, failed, pending, processing and refunded. *)
Theorem status_order_is_alphabetical (f : Filter) (page limit : Z) (w : World) :
  StronglySorted
    (fun a b => alphabetical_rank (status a) <= alphabetical_rank (status b))
    (sorted_payments f (mkPagination page limit "status" asc) w).
Proof.
  unfold sorted_payments. cbn. apply Array_sort_sorted.
  - intros a b c ? ?. lia.
  - intros y x H. apply comparator_status_rank in H. lia.
  - intros y x H.
    destruct (Z_lt_le_dec (alphabetical_rank (status x)) (alphabetical_rank (status y)))
      as [Hlt | Hle]; [| exact Hle].
    apply comparator_status_rank in Hlt. lia.
Qed.

(** ** The queries without pages, and the time stamps *)

(** X23. The queries without pages and the paginated ones agree: [findAll],
    [findByCustomerId] and [findByStatus] return the stored payments that
    match, in the order of the [Map], and change nothing; the paginated
    query for the same filter reports their number as [total], and its
    first page, when the limit is at least that number, holds the same
    payments in the order of the query. *)
Theorem finders_agree (f : Filter) (page limit : Z) (sortBy : string)
    (sortOrder : SortOrder) (w : World) :
  finder f w = (Ok (filtered f w), w)
  /\ Forall (matches f) (filtered f w)
  /\ filtered f w `sublist_of` PaymentRepository.values w
  /\ exists r,
       paginatedQuery f page limit sortBy sortOrder w = (Ok r, w)
       /\ total r = Z.of_nat (length (filtered f w))
       /\ (page = 1 -> total r <= limit -> data r ≡ₚ filtered f w).
Proof.
  split; [| split; [| split]].
  - destruct f; cbn; unfold filtered; cbn;
      unfold PaymentRepository.findAll; by rewrite ?filter_matches_NoFilter.
  - apply Forall_forall. intros x Hx. unfold filtered in Hx.
    by apply list_elem_of_filter in Hx as [? _].
  - apply sublist_filter.
  - rewrite paginatedQuery_unfold. eexists. split; [reflexivity |].
    unfold PaymentRepository.paginateResults. cbn [data total].
    rewrite Array_sort_length. split; [done |].
    intros -> Hlimit. replace ((1 - 1) * limit) with 0 by lia.
    rewrite Array_slice_nonneg by lia.
    change (Z.to_nat 0) with 0%nat. rewrite drop_0.
    rewrite take_ge by (rewrite Array_sort_length; lia).
    apply Array_sort_Permutation.
Qed.

(** X24. A created payment can be read back: [getPaymentById] with the id
    of the payment that [createPayment] returned returns that payment, also
    through the controller; the creation schedules the background
    processing of exactly that id, once; and it never fails: when the uuid
    is the id of a stored payment, that payment is replaced. *)
Theorem createPayment_then_getPaymentById (dto : CreatePaymentDto) (w : World) :
  exists p w',
    PaymentService.createPayment dto w = (Ok p, w')
    /\ PaymentService.getPaymentById (id p) w' = (Ok p, w')
    /\ PaymentController.getPaymentById (id p) w' = (Ok p, w')
    /\ scheduled w' = (scheduled w ++ [id p])%list
    /\ (forall k, k <> id p ->
        PaymentRepository.Map_get k (payments w')
        = PaymentRepository.Map_get k (payments w)).
Proof.
  destruct (createPayment_effect dto w)
    as (p & w' & Hrun & Hp & _ & _ & _ & _ & _ & _ & Hsched).
  exists p, w'. split; [exact Hrun |].
  assert (Hget : PaymentService.getPaymentById (id p) w' = (Ok p, w')).
  { unfold PaymentService.getPaymentById, PaymentRepository.findById, bind.
    by rewrite Hp, Map_get_set_eq. }
  split; [exact Hget |]. split.
  - unfold PaymentController.getPaymentById, bind. rewrite Hget.
    unfold ret. by rewrite toJSON_id.
  - split; [exact Hsched |]. intros k Hk. rewrite Hp. by apply Map_get_set_ne.
Qed.

Lemma finish_updatedAt (w : World) (paymentId : string) (p : PaymentEntity)
    (r1 r2 : float) :
  store_wf (payments w) ->
  PaymentRepository.Map_get paymentId (payments w) = Some p ->
  exists p' w',
    PaymentService.processPaymentAsync_finish paymentId r1 r2 w = (Ok tt, w')
    /\ touched paymentId p p' w w'
    /\ exists n, (clock_reads w <= n < clock_reads w')%nat
                 /\ updatedAt p' = clock_source w n.
Proof.
  intros Hwf Hget.
  destruct (finish_effect w paymentId p r1 r2 Hwf Hget) as (p' & w' & Hrun & Ht & _ & H).
  exists p', w'. split; [done |]. split; [done |].
  destruct (PrimFloat.ltb r1 (PaymentService.getFailureRate p)).
  - destruct H as (_ & _ & _ & Hu & Hc & _). eexists. split; [| exact Hu]. lia.
  - destruct H as (_ & _ & _ & Hu & Hc & _). eexists. split; [| exact Hu]. lia.
Qed.

Lemma timestamps_touched k p p' w w' :
  monotone_clock w ->
  PaymentRepository.Map_get k (payments w) = Some p ->
  touched k p p' w w' ->
  (updatedAt p' = updatedAt p /\ clock_reads w' = clock_reads w
   \/ exists n, (clock_reads w <= n < clock_reads w')%nat
                /\ updatedAt p' = clock_source w n) ->
  Forall (timestamps_ordered w) (PaymentRepository.values w) ->
  Forall (timestamps_ordered w') (PaymentRepository.values w').
Proof.
  intros Hmono Hget (Hp & _ & Hsame & Hcs & _ & _ & Hreads & _) Hupd Hinv.
  assert (Hp0 : timestamps_ordered w p).
  { eapply (proj1 (Forall_forall _ _) Hinv). by eapply Map_get_values. }
  unfold PaymentRepository.values in *. rewrite Hp.
  apply Forall_values_replace_entry.
  - eapply Forall_impl; [exact Hinv |]. intros q [Hq1 Hq2].
    split; [done |]. rewrite Hcs. etransitivity; [exact Hq2 |]. by apply Hmono.
  - destruct Hp0 as [Hc Hu]. destruct Hsame as (_ & _ & _ & _ & _ & _ & Hcreated).
    unfold timestamps_ordered. rewrite Hcreated, Hcs.
    destruct Hupd as [[-> Hsame_reads] | (n & Hn & ->)].
    + split; [done |]. etransitivity; [exact Hu |]. by apply Hmono.
    + split.
      * etransitivity; [exact Hc |]. etransitivity; [exact Hu |]. apply Hmono. lia.
      * apply Hmono. lia.
Qed.

(** X25. With a clock that never goes back: when no stored payment was
    updated before it was created, nor after the present time, this is so
    after every sequence of requests and background steps; [updatedAt] is
    never before [createdAt]. *)
Theorem updatedAt_never_before_createdAt (events : list Event) (w : World) :
  monotone_clock w ->
  store_wf (payments w) ->
  Forall (timestamps_ordered w) (PaymentRepository.values w) ->
  let w' := history events w in
  Forall (timestamps_ordered w') (PaymentRepository.values w')
  /\ Forall (fun p => createdAt p <= updatedAt p) (PaymentRepository.values w').
Proof.
  intros Hmono Hwf Hinv w'.
  assert (H : monotone_clock w'
              /\ Forall (timestamps_ordered w') (PaymentRepository.values w')).
  { apply (history_invariant
             (fun w => monotone_clock w
                       /\ Forall (timestamps_ordered w) (PaymentRepository.values w)));
      [| done | done].
    clear. intros e w Hwf [Hmono Hinv].
    event_cases createPayment_effect updatePayment_cases start_cases finish_cases
    e w Hwf; try done.
    - destruct Heff as (Hp & _ & -> & Hcs & _ & Hreads & _).
      split; [unfold monotone_clock; by rewrite Hcs |].
      unfold PaymentRepository.values in *. rewrite Hp.
      apply Forall_values_Map_set.
      + eapply Forall_impl; [exact Hinv |]. intros q [Hq1 Hq2].
        split; [done |]. rewrite Hcs, Hreads.
        etransitivity; [exact Hq2 |]. apply Hmono. lia.
      + unfold timestamps_ordered. cbn. rewrite Hcs, Hreads.
        split; apply Hmono; lia.
    - split.
      + destruct Ht as (_ & _ & _ & Hcs & _). unfold monotone_clock. by rewrite Hcs.
      + eapply timestamps_touched; try done. apply Heff.
    - split.
      + destruct Ht as (_ & _ & _ & Hcs & _). unfold monotone_clock. by rewrite Hcs.
      + eapply timestamps_touched; try done.
        destruct Heff as (_ & _ & _ & _ & Hu & Hc & _).
        right. eexists. split; [| exact Hu]. lia.
    - destruct (finish_updatedAt w k p r1 r2 Hwf Hget) as (q & w1 & Hrun1 & Ht1 & Hupd).
      rewrite Hrun in Hrun1. injection Hrun1 as <-.
      split.
      + destruct Ht1 as (_ & _ & _ & Hcs & _). unfold monotone_clock. by rewrite Hcs.
      + eapply timestamps_touched; try done. by right. }
  split; [apply H |].
  eapply Forall_impl; [apply H |]. by intros p [? _].
Qed.

Lemma updatedAt_never_before_createdAt_witness :
  Forall (fun p => createdAt p <= updatedAt p)
    (PaymentRepository.values
       (history [Served (Create (mkCreateDto 500 "USD" CREDIT_CARD "c9" None None));
                 ProcessingStarted "a"; ProcessingFinished "a" 0.5 0.5]
          (world_of three_payments))).
Proof.
  apply (updatedAt_never_before_createdAt _ (world_of three_payments)).
  - intros n m Hnm. cbn. unfold ticking_clock. lia.
  - apply store_wf_three_payments.
  - repeat constructor; cbn; unfold ticking_clock; lia.
Defined.

(** ** The API key guard *)

Section GuardFacts.
Variable is_whitespace : ascii -> bool.

Lemma String_split_no_separator separator s :
  Forall (fun segment => occurrences separator segment = 0%nat)
    (String_split separator s).
Proof.
  induction s as [| c s IH]; cbn; [by repeat constructor |].
  destruct (Ascii.eqb c separator) eqn:E; [by constructor |].
  destruct (String_split separator s) as [| segment rest]; cbn.
  - repeat constructor. cbn. by rewrite Ascii.eqb_sym, E.
  - apply Forall_cons in IH as [Hs Hrest]. constructor; [| done].
    cbn. by rewrite Ascii.eqb_sym, E.
Qed.

Lemma occurrences_trimStart c s :
  (occurrences c (ApiKeyGuard.trimStart is_whitespace s) <= occurrences c s)%nat.
Proof.
  induction s as [| c' s IH]; cbn; [done |].
  destruct (is_whitespace c'); cbn; lia.
Qed.

Lemma occurrences_trimEnd c s :
  (occurrences c (ApiKeyGuard.trimEnd is_whitespace s) <= occurrences c s)%nat.
Proof.
  induction s as [| c' s IH]; cbn; [done |].
  destruct (ApiKeyGuard.trimEnd is_whitespace s) as [| c2 rest]; cbn in *.
  - destruct (is_whitespace c'); cbn; lia.
  - lia.
Qed.

Lemma trimEnd_head s c rest :
  ApiKeyGuard.trimEnd is_whitespace s = String c rest ->
  exists rest', s = String c rest'.
Proof.
  destruct s as [| c' s]; cbn; [done |].
  destruct (ApiKeyGuard.trimEnd is_whitespace s).
  - destruct (is_whitespace c'); [done |]. intros [= <- _]. by eexists.
  - intros [= <- _]. by eexists.
Qed.

Lemma trimStart_head s c rest :
  ApiKeyGuard.trimStart is_whitespace s = String c rest -> is_whitespace c = false.
Proof.
  induction s as [| c' s IH]; cbn; [done |].
  destruct (is_whitespace c') eqn:E; [exact IH |]. by intros [= <- _].
Qed.

Lemma trimStart_whitespace s :
  forallb is_whitespace (list_ascii_of_string s) = true ->
  ApiKeyGuard.trimStart is_whitespace s = "".
Proof.
  induction s as [| c s IH]; cbn; [done |].
  destruct (is_whitespace c); cbn; [exact IH | done].
Qed.

Lemma valid_key_shape API_KEYS key :
  key ∈ ApiKeyGuard.getValidApiKeys is_whitespace API_KEYS ->
  key <> ""
  /\ occurrences "," key = 0%nat
  /\ (forall c rest, key = String c rest -> is_whitespace c = false)
  /\ exists apiKeys segment,
       API_KEYS = Some apiKeys /\ segment ∈ String_split "," apiKeys
       /\ key = ApiKeyGuard.trim is_whitespace segment.
Proof.
  unfold ApiKeyGuard.getValidApiKeys.
  destruct API_KEYS as [apiKeys |]; [| by intros ?%elem_of_nil].
  destruct (negb _); [by intros ?%elem_of_nil |].
  intros [Hlen Hin]%list_elem_of_filter.
  apply list_elem_of_fmap in Hin as (segment & -> & Hseg).
  split; [| split; [| split]].
  - intros Heq. rewrite Heq in Hlen. cbn in Hlen. lia.
  - pose proof (String_split_no_separator "," apiKeys) as Hno.
    rewrite Forall_forall in Hno. specialize (Hno _ Hseg).
    pose proof (occurrences_trimEnd ","
                  (ApiKeyGuard.trimStart is_whitespace segment)).
    pose proof (occurrences_trimStart "," segment).
    unfold ApiKeyGuard.trim. lia.
  - intros c rest Hkey. unfold ApiKeyGuard.trim in Hkey.
    apply trimEnd_head in Hkey as [rest' Hkey]. by eapply trimStart_head.
  - by exists apiKeys, segment.
Qed.

Lemma String_split_blank s :
  forallb (fun c => Ascii.eqb c "," || is_whitespace c) (list_ascii_of_string s) = true ->
  Forall (fun segment => forallb is_whitespace (list_ascii_of_string segment) = true)
    (String_split "," s).
Proof.
  induction s as [| c s IH]; cbn; [by repeat constructor |].
  intros [Hc Hs]%andb_prop. specialize (IH Hs).
  destruct (Ascii.eqb c ",") eqn:E; [by constructor |].
  cbn in Hc. destruct (String_split "," s) as [| segment rest].
  - repeat constructor. cbn. by rewrite Hc.
  - apply Forall_cons in IH as [Hsegment Hrest]. constructor; [| done].
    cbn. by rewrite Hc.
Qed.

Lemma canActivate_Activated API_KEYS apiKeyHeader :
  ApiKeyGuard.canActivate is_whitespace API_KEYS apiKeyHeader = Activated ->
  exists key,
    apiKeyHeader = Some key
    /\ key ∈ ApiKeyGuard.getValidApiKeys is_whitespace API_KEYS.
Proof.
  unfold ApiKeyGuard.canActivate, ApiKeyGuard.extractApiKey,
    ApiKeyGuard.validateApiKey.
  destruct apiKeyHeader as [key |]; cbn; [| done].
  destruct (String.eqb key ""); cbn; [done |].
  destruct (bool_decide_reflect
              (key ∈ ApiKeyGuard.getValidApiKeys is_whitespace API_KEYS))
    as [Hin | _]; cbn; [| done].
  intros _. by exists key.
Qed.

End GuardFacts.

(** X26. Which keys the guard lets in. When [canActivate] returns, the
    request carries an [x-api-key] header that is one of the keys of
    [API_KEYS]: the trimmed text of one of its comma-separated parts. So the
    key is not empty, holds no comma, and does not begin with a character
    that [trim] removes (a key sent with a space before it is rejected). *)
Theorem guard_accepts_configured_keys (is_whitespace : ascii -> bool)
    (API_KEYS apiKeyHeader : option string) :
  ApiKeyGuard.canActivate is_whitespace API_KEYS apiKeyHeader = Activated ->
  exists key apiKeys segment,
    apiKeyHeader = Some key
    /\ API_KEYS = Some apiKeys
    /\ segment ∈ String_split "," apiKeys
    /\ key = ApiKeyGuard.trim is_whitespace segment
    /\ key <> ""
    /\ occurrences "," key = 0%nat
    /\ (forall c rest, key = String c rest -> is_whitespace c = false).
Proof.
  intros Hact.
  apply canActivate_Activated in Hact as (key & -> & Hin).
  destruct (valid_key_shape is_whitespace API_KEYS key Hin)
    as (Hne & Hcomma & Hhead & apiKeys & segment & Henv & Hseg & Hkey).
  by exists key, apiKeys, segment.
Qed.

Lemma guard_accepts_configured_keys_witness :
  exists segment,
    segment ∈ String_split "," "alpha, beta ,,gamma"
    /\ "beta" = ApiKeyGuard.trim ascii_whitespace segment.
Proof.
  destruct (guard_accepts_configured_keys ascii_whitespace
              (Some "alpha, beta ,,gamma") (Some "beta"))
    as (key & apiKeys & segment & [= <-] & [= <-] & Hseg & Hkey & _).
  - by vm_compute.
  - by exists segment.
Defined.

(** X27. The guard fails closed, and public routes are open. Without
    [API_KEYS], or with an empty one, or with one that holds only commas and
    characters that [trim] removes, no request passes the key guard,
    whatever header it carries; a request without the header, or with an
    empty one, is turned away with "API key is required" whatever the
    keys are; and a route marked public is activated without any key. *)
Theorem guard_fails_closed (is_whitespace : ascii -> bool)
    (API_KEYS apiKeyHeader : option string) :
  ((forall apiKeys, API_KEYS = Some apiKeys ->
      forallb (fun c => Ascii.eqb c "," || is_whitespace c)
        (list_ascii_of_string apiKeys) = true) ->
   ApiKeyGuard.canActivate is_whitespace API_KEYS apiKeyHeader <> Activated
   /\ ApiAuthGuard.canActivate is_whitespace false API_KEYS apiKeyHeader <> Activated)
  /\ (apiKeyHeader = None \/ apiKeyHeader = Some "" ->
      ApiKeyGuard.canActivate is_whitespace API_KEYS apiKeyHeader
      = UnauthorizedException "API key is required")
  /\ ApiAuthGuard.canActivate is_whitespace true API_KEYS apiKeyHeader = Activated.
Proof.
  split; [| split; [| reflexivity]].
  - intros Hblank.
    assert (Hclosed : ApiKeyGuard.canActivate is_whitespace API_KEYS apiKeyHeader
                      <> Activated); [| by split].
    intros Hact.
    apply canActivate_Activated in Hact as (key & _ & Hin).
    destruct (valid_key_shape is_whitespace API_KEYS key Hin)
      as (Hne & _ & _ & apiKeys & segment & -> & Hseg & Hkey).
    apply Hne. rewrite Hkey. unfold ApiKeyGuard.trim.
    rewrite trimStart_whitespace; [done |].
    pose proof (String_split_blank is_whitespace apiKeys (Hblank apiKeys eq_refl)) as H.
    rewrite Forall_forall in H. by apply H.
  - unfold ApiKeyGuard.canActivate, ApiKeyGuard.extractApiKey.
    by intros [-> | ->].
Qed.
